(** * QA_Chatbot: the retrieval core, embedded in Rocq

    A shallow embedding of [app/ingest.py] (the chunker), [app/qa.py]
    (the extractive answer strategy) and [app/retriever.py] (the
    FAISS-backed retriever), followed by the properties of these
    functions.

    Python values are modelled as follows: [int] is [Z]; [str] is a list
    of code points; a [float] is a [spec_float] (IEEE 754 binary64);
    a raised exception is the [Raise] case of [result]; the attributes
    of [self] and the files on disk are passed explicitly. *)

From Stdlib Require Import ZArith List Lia Bool Ascii String SpecFloat.
Import ListNotations.

Local Open Scope Z_scope.

(* ================================================================= *)
(** * Python primitives *)

(** A Python [str] is a sequence of Unicode code points. *)
Definition codepoint := N.
Definition pystr := list codepoint.

(** An ASCII literal as a Python string. *)
Definition str (s : string) : pystr :=
  map N_of_ascii (list_ascii_of_string s).

Inductive exn :=
| RuntimeError (msg : string)
| AssertionError
| AttributeError
| IndexError
| ValueError
| FileNotFoundError
| PermissionError
| UnicodeEncodeError.

Inductive result (A : Type) :=
| Ok (a : A)
| Raise (e : exn).

Arguments Ok {A} a.
Arguments Raise {A} e.

Section Sequences.
Context {A : Type}.

(** Index adjustment of a slice bound with step 1: a negative bound
    counts from the end, and the bound is then clamped to [0, len]. *)
Definition adjust_index (len i : Z) : Z :=
  if i <? 0 then Z.max 0 (i + len) else Z.min i len.

(** [s[start:stop]] *)
Definition pyslice (s : list A) (start stop : Z) : list A :=
  let len := Z.of_nat (List.length s) in
  let lo := adjust_index len start in
  let hi := adjust_index len stop in
  firstn (Z.to_nat (hi - lo)) (skipn (Z.to_nat lo) s).

(** [s[i]] on a list: a negative index counts from the end, and an
    index out of range raises [IndexError]. *)
Definition py_getitem (s : list A) (i : Z) : result A :=
  let len := Z.of_nat (List.length s) in
  let j := if i <? 0 then i + len else i in
  if (j <? 0) || (len <=? j) then Raise IndexError
  else match nth_error s (Z.to_nat j) with
       | Some a => Ok a
       | None => Raise IndexError
       end.

(** [s.replace("", new)]: [new] is inserted before every element and
    at the end. *)
Definition replace_empty (new s : list A) : list A :=
  new ++ flat_map (fun c => c :: new) s.

Fixpoint drop_while (p : A -> bool) (s : list A) : list A :=
  match s with
  | [] => []
  | c :: s' => if p c then drop_while p s' else s
  end.
End Sequences.

(** The code points [str.isspace] accepts, which [str.strip] removes. *)
Definition isspace (c : codepoint) : bool :=
  ((9 <=? c) && (c <=? 13) || (28 <=? c) && (c <=? 32)
   || (c =? 133) || (c =? 160) || (c =? 5760)
   || (8192 <=? c) && (c <=? 8202)
   || (c =? 8232) || (c =? 8233) || (c =? 8239) || (c =? 8287)
   || (c =? 12288))%N.

(** [s.strip()] *)
Definition strip (s : pystr) : pystr :=
  rev (drop_while isspace (rev (drop_while isspace s))).

(** [sep.join(parts)] *)
Fixpoint join (sep : pystr) (parts : list pystr) : pystr :=
  match parts with
  | [] => []
  | [p] => p
  | p :: rest => p ++ sep ++ join sep rest
  end.

(* ================================================================= *)
(** * app/ingest.py: the chunker *)

(** The variables of the [while] loop of [chunk_text]. *)
Record loop_state := { start : Z; chunks : list pystr }.

Section ChunkLoop.
Variables (text : pystr) (chunk_size overlap length : Z).

(** One pass through the body of the loop. *)
Definition loop_body (st : loop_state) : loop_state :=
  let end_ := Z.min (start st + chunk_size) length in
  let chunk := pyslice text (start st) end_ in
  {| start := start st + (chunk_size - overlap);
     chunks := chunks st ++ [chunk] |}.

(** [while start < length: ...], run for at most [fuel] tests of the
    condition; [None] when the fuel runs out before the loop exits. *)
Fixpoint while_loop (fuel : nat) (st : loop_state) : option (list pystr) :=
  match fuel with
  | O => None
  | S fuel' =>
      if start st <? length then while_loop fuel' (loop_body st)
      else Some (chunks st)
  end.

(** The same loop as a big-step relation: [while_exec st res] when the
    loop, entered in state [st], exits with [chunks = res]. *)
Inductive while_exec : loop_state -> list pystr -> Prop :=
| while_exit st :
    ~ start st < length -> while_exec st (chunks st)
| while_iter st res :
    start st < length -> while_exec (loop_body st) res -> while_exec st res.
End ChunkLoop.

(** [chunk_text(text, chunk_size, overlap)] with a bound on the number
    of loop tests. *)
Definition chunk_text_fuel (fuel : nat) (text : pystr) (chunk_size overlap : Z)
  : option (list pystr) :=
  match text with
  | [] => Some []
  | _ =>
      let text := replace_empty [] text in
      let length := Z.of_nat (List.length text) in
      while_loop text chunk_size overlap length fuel {| start := 0; chunks := [] |}
  end.

(** [chunk_text] run with one loop test more than the text has
    characters; this is all a call with [overlap < chunk_size] needs. *)
Definition chunk_text (text : pystr) (chunk_size overlap : Z)
  : option (list pystr) :=
  chunk_text_fuel (S (List.length text)) text chunk_size overlap.

(** [chunk_text] as a relation between the arguments and the returned
    list. *)
Inductive chunk_text_returns (text : pystr) (chunk_size overlap : Z)
  : list pystr -> Prop :=
| returns_empty :
    text = [] -> chunk_text_returns text chunk_size overlap []
| returns_chunks res :
    text <> [] ->
    while_exec (replace_empty [] text) chunk_size overlap
      (Z.of_nat (List.length (replace_empty [] text)))
      {| start := 0; chunks := [] |} res ->
    chunk_text_returns text chunk_size overlap res.

(** The window the specification assigns to chunk [i], and the number
    of windows that start inside the text. *)
Definition window (text : pystr) (chunk_size overlap : Z) (i : nat) : pystr :=
  pyslice text (Z.of_nat i * (chunk_size - overlap))
               (Z.of_nat i * (chunk_size - overlap) + chunk_size).

Definition window_count (text : pystr) (chunk_size overlap : Z) : nat :=
  Z.to_nat ((Z.of_nat (List.length text) + (chunk_size - overlap) - 1)
            / (chunk_size - overlap)).

(* ================================================================= *)
(** * app/qa.py: the extractive strategy *)

(** The dict the question-answering pipeline returns; a field is [None]
    when the key is missing. *)
Record qa_result := { qa_answer : option pystr; qa_score : option spec_float }.

(** [d.get(key, default)] *)
Definition dict_get {A : Type} (field : option A) (default : A) : A :=
  match field with
  | Some a => a
  | None => default
  end.

(** One line of [logs/qa_interactions.log]. *)
Record log_entry := {
  log_timestamp : pystr;
  log_question : pystr;
  log_answer : pystr;
  log_confidence : option spec_float
}.

(** A surrogate code point, which UTF-8 does not encode. *)
Definition is_surrogate (c : codepoint) : bool :=
  ((55296 <=? c) && (c <=? 57343))%N.

(** A string that [f.write] can encode. *)
Definition encodable (s : pystr) : bool :=
  forallb (fun c => negb (is_surrogate c)) s.

(** Whether the directory of the log can be made and the log opened for
    appending. *)
Class LogFile := { log_writable : bool }.

(** [log_qa_interaction(question, answer, score)]: one entry is appended
    to the log; [now] is the reading of the clock, in ASCII.  The call
    raises when the log cannot be opened, and when the line cannot be
    encoded, before anything is written. *)
Definition log_qa_interaction `{LogFile} (now question answer : pystr)
    (score : option spec_float) (log : list log_entry)
  : result (list log_entry) :=
  if negb log_writable then Raise PermissionError
  else if encodable question && encodable answer then
    Ok (log ++ [{| log_timestamp := now; log_question := question;
                   log_answer := answer; log_confidence := score |}])
  else Raise UnicodeEncodeError.

(** The float [0.1]: 7205759403792794 * 2^-56. *)
Definition threshold : spec_float := S754_finite false 7205759403792794 (-56).

(** The int [0], the default of [result.get("score", 0)], as a float. *)
Definition zero_score : spec_float := S754_zero false.

(** The answer given in place of an empty or low-confidence span; its
    apostrophe is U+2019. *)
Definition sentinel : pystr :=
  str "I don" ++ [8217%N] ++ str "t know, but I can help search for more info.".

Definition not_ (s : pystr) : bool :=
  match s with
  | [] => true
  | _ => false
  end.

Section Extractive.
Context {L : LogFile}.
(** The question-answering pipeline, an external model. *)
Variable roberta_model : pystr -> pystr -> result qa_result.

Definition answer_with_roberta (now question : pystr) (contexts : list pystr)
    (log : list log_entry) : result (pystr * list log_entry) :=
  let context_text := join [10%N] contexts in
  match roberta_model question context_text with
  | Raise e => Raise e
  | Ok result =>
      let answer := strip (dict_get (qa_answer result) []) in
      let score := dict_get (qa_score result) zero_score in
      let answer :=
        if not_ answer || SFltb score threshold then sentinel else answer in
      match log_qa_interaction now question answer (Some score) log with
      | Raise e => Raise e
      | Ok log' => Ok (answer, log')
      end
  end.
End Extractive.

(* ================================================================= *)
(** * app/retriever.py: the retriever *)

(** ** numpy arrays of floats, of one or two dimensions *)

Inductive dtype := float16 | float32 | float64.

Definition is_float32 (dt : dtype) : bool :=
  match dt with
  | float32 => true
  | _ => false
  end.

Definition vector := list spec_float.

Inductive ndarray :=
| Arr1 (dt : dtype) (v : vector)
| Arr2 (dt : dtype) (ncols : nat) (rows : list vector).

Definition arr_dtype (a : ndarray) : dtype :=
  match a with
  | Arr1 dt _ => dt
  | Arr2 dt _ _ => dt
  end.

(** [len(a.shape)] *)
Definition ndim (a : ndarray) : Z :=
  match a with
  | Arr1 _ _ => 1
  | Arr2 _ _ _ => 2
  end.

(** [np.expand_dims(a, 0)] of a one-dimensional array. *)
Definition expand_dims0 (a : ndarray) : ndarray :=
  match a with
  | Arr1 dt v => Arr2 dt (List.length v) [v]
  | Arr2 _ _ _ => a
  end.

(** Rounding of a binary64 value to binary32. *)
Definition to_float32 (x : spec_float) : spec_float :=
  match x with
  | S754_finite s m e => binary_round 24 128 s m e
  | _ => x
  end.

(** [a.astype('float32')] *)
Definition astype_float32 (a : ndarray) : ndarray :=
  let cast v := if is_float32 (arr_dtype a) then v else map to_float32 v in
  match a with
  | Arr1 _ v => Arr1 float32 (cast v)
  | Arr2 _ ncols rows => Arr2 float32 ncols (map cast rows)
  end.

(** ** The embedding model *)

(** Modelled from the spec: the Embedding Provider (the
    SentenceTransformer model, an external library) declares a
    dimension, a positive number, and maps a text to a vector. *)
Class EmbeddingProvider := {
  dimension : positive;
  encode_dtype : dtype;
  embed : pystr -> vector
}.

(** [model.encode(texts, convert_to_numpy=True)]: one row per text, in
    order; of an empty batch the library returns the empty array of one
    dimension, of shape [(0,)]. *)
Definition model_encode `{EmbeddingProvider} (texts : list pystr) : ndarray :=
  match texts with
  | [] => Arr1 encode_dtype []
  | _ => Arr2 encode_dtype (Pos.to_nat dimension) (map embed texts)
  end.

(** ** The vector index *)

(** A flat L2 index: its dimension, a positive number, and its vectors
    in insertion order. *)
Record IndexFlatL2 := { ix_d : positive; ix_xb : list vector }.

(** [faiss.IndexFlatL2(dim)] *)
Definition new_IndexFlatL2 (dim : positive) : IndexFlatL2 :=
  {| ix_d := dim; ix_xb := [] |}.

Definition ntotal (ix : IndexFlatL2) : nat := List.length (ix_xb ix).

(** Modelled from the spec: [index.add(x)] of the Vector Index (faiss, an
    external library) appends the rows of [x] in order, and fails when
    their width is not the dimension of the index. *)
Definition index_add (ix : IndexFlatL2) (x : ndarray) : result IndexFlatL2 :=
  match x with
  | Arr1 _ _ => Raise ValueError
  | Arr2 _ ncols rows =>
      if Nat.eqb ncols (Pos.to_nat (ix_d ix))
      then Ok {| ix_d := ix_d ix; ix_xb := ix_xb ix ++ rows |}
      else Raise AssertionError
  end.

(** [index.search(x, k)] of faiss, taken as given: it returns the
    arrays [D] of distances and [I] of positions, or raises. *)
Class FaissSearch := {
  index_search :
    IndexFlatL2 -> ndarray -> Z -> result (list vector * list (list Z))
}.

(** ** Files *)

Inductive file (A : Type) :=
| Absent
| Unreadable
| Readable (content : A).

Arguments Absent {A}.
Arguments Unreadable {A}.
Arguments Readable {A} content.

(** [os.path.exists(path)] *)
Definition os_path_exists {A : Type} (f : file A) : bool :=
  match f with
  | Absent => false
  | _ => true
  end.

(** [faiss.read_index(path)] and [json.load(f)] *)
Definition read_file {A : Type} (f : file A) : result A :=
  match f with
  | Absent => Raise FileNotFoundError
  | Unreadable => Raise (RuntimeError "unreadable")
  | Readable a => Ok a
  end.

(** [os.remove(path)]; [locked] says that the entry at the path cannot
    be removed: it is a directory, or its directory cannot be written. *)
Definition os_remove {A : Type} (locked : bool) (f : file A)
  : result (file A) :=
  match f with
  | Absent => Raise FileNotFoundError
  | _ => if locked then Raise PermissionError else Ok Absent
  end.

(** A record of the metadata list; a field is [None] when the dict has
    no such key. *)
Record meta := { meta_text : option pystr; meta_source : option pystr }.

(** What the retriever sees outside itself: whether [import faiss]
    succeeded, the files at [index_path] and [meta_path], and whether
    the entries at these paths cannot be removed. *)
Record world := {
  faiss : bool;
  index_file : file IndexFlatL2;
  meta_file : file (list meta);
  index_locked : bool;
  meta_locked : bool
}.

(** ** The class [Retriever] *)

Record Retriever := {
  dim : positive;
  index : option IndexFlatL2;
  metadatas : list meta
}.

Definition set_index (self : Retriever) (ix : option IndexFlatL2) : Retriever :=
  {| dim := dim self; index := ix; metadatas := metadatas self |}.

Definition set_metadatas (self : Retriever) (ms : list meta) : Retriever :=
  {| dim := dim self; index := index self; metadatas := ms |}.

Definition _load (w : world) (self : Retriever) : result Retriever :=
  let self :=
    if os_path_exists (index_file w) && faiss w then
      match read_file (index_file w) with
      | Ok ix => set_index self (Some ix)
      | Raise _ => set_index self None
      end
    else self in
  let self :=
    if os_path_exists (meta_file w) then
      match read_file (meta_file w) with
      | Ok ms => set_metadatas self ms
      | Raise _ => set_metadatas self []
      end
    else self in
  match index self with
  | None =>
      if negb (faiss w)
      then Raise (RuntimeError "faiss is required. Please install faiss-cpu or faiss-gpu.")
      else Ok (set_index self (Some (new_IndexFlatL2 (dim self))))
  | Some _ => Ok self
  end.

(** [Retriever(index_path, meta_path)] *)
Definition __init__ `{EmbeddingProvider} (w : world) : result Retriever :=
  _load w {| dim := dimension; index := None; metadatas := [] |}.

(** The body of a [try: if os.path.exists(p): os.remove(p)] with
    [except Exception: pass]. *)
Definition try_remove {A : Type} (locked : bool) (f : file A) : file A :=
  match (if os_path_exists f then os_remove locked f else Ok f) with
  | Ok f' => f'
  | Raise _ => f
  end.

Definition reset (w : world) (self : Retriever) (remove_files : bool)
  : result (Retriever * world) :=
  if negb (faiss w)
  then Raise (RuntimeError "faiss is required to create or reset the index")
  else
    let self := set_index self (Some (new_IndexFlatL2 (dim self))) in
    let self := set_metadatas self [] in
    if remove_files then
      let w := {| faiss := faiss w;
                  index_file := try_remove (index_locked w) (index_file w);
                  meta_file := meta_file w;
                  index_locked := index_locked w;
                  meta_locked := meta_locked w |} in
      let w := {| faiss := faiss w; index_file := index_file w;
                  meta_file := try_remove (meta_locked w) (meta_file w);
                  index_locked := index_locked w;
                  meta_locked := meta_locked w |} in
      Ok (self, w)
    else Ok (self, w).

(** The files after the two guarded removals of [reset]. *)
Definition remove_persisted (w : world) : world :=
  {| faiss := faiss w;
     index_file := try_remove (index_locked w) (index_file w);
     meta_file := try_remove (meta_locked w) (meta_file w);
     index_locked := index_locked w;
     meta_locked := meta_locked w |}.

(** [for t, s in zip(texts, sources): metadatas.append(...)] *)
Definition append_records (ms : list meta) (texts sources : list pystr)
  : list meta :=
  fold_left
    (fun ms ts => ms ++ [{| meta_text := Some (fst ts); meta_source := Some (snd ts) |}])
    (combine texts sources) ms.

Definition add_documents `{EmbeddingProvider} (self : Retriever)
    (texts sources : list pystr) : result Retriever :=
  let embeddings := model_encode texts in
  let embeddings :=
    if ndim embeddings =? 1 then expand_dims0 embeddings else embeddings in
  match index self with
  | None => Raise AttributeError
  | Some ix =>
      match index_add ix (astype_float32 embeddings) with
      | Raise e => Raise e
      | Ok ix' =>
          let self := set_index self (Some ix') in
          Ok (set_metadatas self (append_records (metadatas self) texts sources))
      end
  end.

(** An element of the list [search] returns. *)
Record hit := {
  hit_score : spec_float;
  hit_text : option pystr;
  hit_source : option pystr
}.

(** The [for score, idx in zip(D[0], I[0])] loop of [search]. *)
Fixpoint collect_hits (ms : list meta) (pairs : list (spec_float * Z))
    (results : list hit) : result (list hit) :=
  match pairs with
  | [] => Ok results
  | (score, idx) :: rest =>
      if (idx <? 0) || (idx >=? Z.of_nat (List.length ms))
      then collect_hits ms rest results
      else
        match py_getitem ms idx with
        | Raise e => Raise e
        | Ok m =>
            collect_hits ms rest
              (results ++ [{| hit_score := score; hit_text := meta_text m;
                              hit_source := meta_source m |}])
        end
  end.

(** The first lines of [search]: the query is encoded as a batch of
    one text, and cast when its dtype is not float32. *)
Definition query_array `{EmbeddingProvider} (query : pystr) : ndarray :=
  let q_emb := model_encode [query] in
  if negb (is_float32 (arr_dtype q_emb)) then astype_float32 q_emb else q_emb.

Definition search `{EmbeddingProvider} `{FaissSearch} (self : Retriever)
    (query : pystr) (top_k : Z) : result (list hit) :=
  let q_emb := query_array query in
  match index self with
  | None => Raise AttributeError
  | Some ix =>
      match index_search ix q_emb top_k with
      | Raise e => Raise e
      | Ok (D, I_) =>
          match py_getitem D 0 with
          | Raise e => Raise e
          | Ok D0 =>
              match py_getitem I_ 0 with
              | Raise e => Raise e
              | Ok I0 => collect_hits (metadatas self) (combine D0 I0) []
              end
          end
      end
  end.

(** ** Observations on a retriever *)

(** The retriever after a call, whether it returned or raised: a call
    that raises before it assigns anything leaves [self] as it was. *)
Definition after_add `{EmbeddingProvider} (self : Retriever)
    (call : list pystr * list pystr) : Retriever :=
  match add_documents self (fst call) (snd call) with
  | Ok self' => self'
  | Raise _ => self
  end.

Definition after_reset (remove_files : bool) (st : Retriever * world)
  : Retriever * world :=
  match reset (snd st) (fst st) remove_files with
  | Ok st' => st'
  | Raise _ => st
  end.

(** The vector index and the metadata list have the same size. *)
Definition lockstep (self : Retriever) : Prop :=
  exists ix, index self = Some ix /\ ntotal ix = List.length (metadatas self).

(** The record [add_documents] appends for a text and its source. *)
Definition record_of (ts : pystr * pystr) : meta :=
  {| meta_text := Some (fst ts); meta_source := Some (snd ts) |}.

(** The results the specification asks of [search]: one for every pair
    whose position is a valid index into the metadata, in order. *)
Definition valid_position (ms : list meta) (idx : Z) : bool :=
  (0 <=? idx) && (idx <? Z.of_nat (List.length ms)).

Definition lookup_hits (ms : list meta) (pairs : list (spec_float * Z))
  : list hit :=
  flat_map
    (fun p =>
       if valid_position ms (snd p) then
         match nth_error ms (Z.to_nat (snd p)) with
         | Some m => [{| hit_score := fst p; hit_text := meta_text m;
                         hit_source := meta_source m |}]
         | None => []
         end
       else [])
    pairs.

(** The vector [add_documents] stores for a text. *)
Definition stored_vector `{EmbeddingProvider} (t : pystr) : vector :=
  if is_float32 encode_dtype then embed t else map to_float32 (embed t).

(* ================================================================= *)
(** * app/retriever.py: persistence *)

(** What an attempt to write a file comes to: the file then holds what
    was written, or the write raised and left the file in some state. *)
Inductive write_attempt (A : Type) :=
| Succeeds
| Fails (leaves : file A).

Arguments Succeeds {A}.
Arguments Fails {A} leaves.

(** The body of a [try: write(...)] with [except Exception: pass]. *)
Definition try_write {A : Type} (attempt : write_attempt A) (content : A)
  : file A :=
  match attempt with
  | Succeeds => Readable content
  | Fails leaves => leaves
  end.

(** [retr.save()]; the two arguments after [self] say how the two
    writes go. *)
Definition save (w : world) (self : Retriever)
    (index_write : write_attempt IndexFlatL2)
    (meta_write : write_attempt (list meta)) : world :=
  let w :=
    match index self with
    | Some ix =>
        if faiss w then
          {| faiss := faiss w;
             index_file := try_write index_write ix;
             meta_file := meta_file w;
             index_locked := index_locked w;
             meta_locked := meta_locked w |}
        else w
    | None => w
    end in
  {| faiss := faiss w; index_file := index_file w;
     meta_file := try_write meta_write (metadatas self);
     index_locked := index_locked w; meta_locked := meta_locked w |}.

(** The calls a caller can make on a retriever, and the retriever and
    the files after one of them, whether it returned or raised. *)
Inductive operation :=
| AddDocuments (texts sources : list pystr)
| Reset (remove_files : bool)
| Save (index_write : write_attempt IndexFlatL2)
       (meta_write : write_attempt (list meta)).

Definition after_operation `{EmbeddingProvider} (st : Retriever * world)
    (o : operation) : Retriever * world :=
  match o with
  | AddDocuments texts sources => (after_add (fst st) (texts, sources), snd st)
  | Reset remove_files => after_reset remove_files st
  | Save index_write meta_write =>
      (fst st, save (snd st) (fst st) index_write meta_write)
  end.

(** What construction establishes and every operation keeps: there is
    an index, [self.dim] is the dimension of the provider, and faiss was
    imported. *)
Definition constructed `{EmbeddingProvider} (st : Retriever * world) : Prop :=
  (exists ix, index (fst st) = Some ix) /\
  dim (fst st) = dimension /\
  faiss (snd st) = true.

(** A metadata record with both of its keys. *)
Definition complete (m : meta) : bool :=
  match meta_text m, meta_source m with
  | Some _, Some _ => true
  | _, _ => false
  end.

(* ================================================================= *)
(** * app/ingest.py: parsing *)

Fixpoint str_eqb (a b : pystr) : bool :=
  match a, b with
  | [], [] => true
  | x :: a', y :: b' => N.eqb x y && str_eqb a' b'
  | _, _ => false
  end.

(** [x in (a, b, ...)] *)
Definition in_tuple (x : pystr) (t : list pystr) : bool :=
  existsb (str_eqb x) t.

(** [str.lower], a table of the Unicode database, taken as given. *)
Class Unicode := { lower : pystr -> pystr }.

Definition bytes := list N.

(** The files the parsers read, by path. *)
Definition store := pystr -> option bytes.

(** What the parsers use of pathlib, pdfplumber, pypdf, python-docx and
    pandas, taken as given, on the bytes of the file: the suffix of a
    path, the path of an upload, the decoding of a text file, the texts
    of the pages of a PDF by either library ([None] when a page has
    none), the texts of the paragraphs of a Word file, and
    [parse_xlsx] as a whole, which returns a string or nothing. *)
Class Extractors := {
  suffix : pystr -> pystr;
  upload_path : pystr -> pystr;
  decode_text : bytes -> pystr;
  pdfplumber_pages : bytes -> result (list (option pystr));
  pypdf_pages : bytes -> result (list (option pystr));
  docx_paragraphs : bytes -> result (list pystr);
  xlsx_text : bytes -> result (option pystr)
}.

(** Opening a path for reading. *)
Definition open_ (fs : store) (path : pystr) : result bytes :=
  match fs path with
  | Some b => Ok b
  | None => Raise FileNotFoundError
  end.

Definition parse_txt `{Extractors} (fs : store) (path : pystr) : result pystr :=
  match open_ fs path with
  | Raise e => Raise e
  | Ok b => Ok (decode_text b)
  end.

(** ["".join(page.extract_text() or "" for each page)] *)
Definition join_pages (pages : list (option pystr)) : pystr :=
  join [] (map (fun p => dict_get p []) pages).

(** The body of the [try] of [parse_pdf], and that of its [except]. *)
Definition pages_with `{Extractors}
    (extract : bytes -> result (list (option pystr)))
    (fs : store) (path : pystr) : result pystr :=
  match open_ fs path with
  | Raise e => Raise e
  | Ok b =>
      match extract b with
      | Raise e => Raise e
      | Ok pages => Ok (join_pages pages)
      end
  end.

Definition parse_pdf `{Extractors} (fs : store) (path : pystr) : result pystr :=
  match pages_with pdfplumber_pages fs path with
  | Ok text => Ok text
  | Raise _ => pages_with pypdf_pages fs path
  end.

Definition parse_docx `{Extractors} (fs : store) (path : pystr) : result pystr :=
  match open_ fs path with
  | Raise e => Raise e
  | Ok b =>
      match docx_paragraphs b with
      | Raise e => Raise e
      | Ok paras => Ok (join [] paras)
      end
  end.

Definition parse_xlsx `{Extractors} (fs : store) (path : pystr)
  : result (option pystr) :=
  match open_ fs path with
  | Raise e => Raise e
  | Ok b => xlsx_text b
  end.

Definition some_text (r : result pystr) : result (option pystr) :=
  match r with
  | Ok text => Ok (Some text)
  | Raise e => Raise e
  end.

(** The content [parse_and_chunk_file] hands to [chunk_text]. *)
Definition parse_file `{Unicode} `{Extractors} (fs : store) (path : pystr)
  : result (option pystr) :=
  let ext := lower (suffix path) in
  if in_tuple ext [str ".txt"] then some_text (parse_txt fs path)
  else if in_tuple ext [str ".pdf"] then some_text (parse_pdf fs path)
  else if in_tuple ext [str ".docx"; str ".doc"] then some_text (parse_docx fs path)
  else if in_tuple ext [str ".xlsx"; str ".xls"; str ".csv"] then parse_xlsx fs path
  else some_text (parse_txt fs path).

(** [parse_and_chunk_file(path)]; [None] when [chunk_text] does not
    return within its bound. *)
Definition parse_and_chunk_file `{Unicode} `{Extractors} (fs : store)
    (path : pystr) : option (result (list pystr)) :=
  match parse_file fs path with
  | Raise e => Some (Raise e)
  | Ok None => Some (Ok [])
  | Ok (Some content) =>
      match chunk_text content 800 100 with
      | Some chunks => Some (Ok chunks)
      | None => None
      end
  end.

(* ================================================================= *)
(** * app/qa.py: the generative strategy *)

(** A list that does not start with an element [p] accepts. *)
Definition clean_head {A : Type} (p : A -> bool) (s : list A) : bool :=
  match s with
  | [] => true
  | c :: _ => negb (p c)
  end.


Fixpoint startswith (prefix s : pystr) : bool :=
  match prefix, s with
  | [], _ => true
  | x :: prefix', y :: s' => N.eqb x y && startswith prefix' s'
  | _ :: _, [] => false
  end.

(** [needle in s] *)
Fixpoint contains (needle s : pystr) : bool :=
  startswith needle s ||
  match s with
  | [] => false
  | _ :: s' => contains needle s'
  end.

(** An element of the list the text2text pipeline returns. *)
Record generation := { generated_text : option pystr }.

Definition not_relevant : pystr := str "not relevant to the context".

(** The f-string of [answer_with_flan_t5]; 10 is the newline and 34 the
    double quote. *)
Definition prompt_of (context_text question : pystr) : pystr :=
  str "You are a helpful and precise AI assistant." ++ [10%N]
  ++ str "Answer ONLY based on the context below." ++ [10%N]
  ++ str "If the answer is not in the context, respond with: "
  ++ [34%N] ++ not_relevant ++ [34%N] ++ str "." ++ [10%N; 10%N]
  ++ str "Context:" ++ [10%N] ++ context_text ++ [10%N; 10%N]
  ++ str "Question: " ++ question ++ [10%N].

Definition answer_with_flan_t5 `{LogFile} `{Unicode}
    (flan_model : pystr -> result (list generation))
    (now question : pystr) (contexts : list pystr) (log : list log_entry)
  : result (pystr * list log_entry) :=
  let context_text := join [10%N; 10%N] contexts in
  let prompt := prompt_of context_text question in
  match flan_model prompt with
  | Raise e => Raise e
  | Ok results =>
      match py_getitem results 0 with
      | Raise e => Raise e
      | Ok result =>
          let answer := strip (dict_get (generated_text result) []) in
          let answer :=
            if not_ answer
               || contains (str "not relevant") (lower answer)
               || contains (str "i don't know") (lower answer)
            then not_relevant else answer in
          match log_qa_interaction now question answer None log with
          | Raise e => Raise e
          | Ok log' => Ok (answer, log')
          end
      end
  end.

(* ================================================================= *)
(** * app/main.py: the two endpoints *)

Record UploadFile := { filename : pystr; upload_bytes : bytes }.

(** What the endpoints work on: the retriever [retr], the files it
    persists to, the files under the upload directory, and the log. *)
Record app := {
  retr : Retriever;
  disk : world;
  uploads : store;
  qa_log : list log_entry
}.

(** [shutil.copyfileobj(f.file, buffer)] into [dest] *)
Definition write_upload (fs : store) (dest : pystr) (b : bytes) : store :=
  fun path => if str_eqb path dest then Some b else fs path.

(** The [for f in files] loop of [upload_files]: the state it leaves and
    the list [saved], or the exception that ended it; [None] when a call
    of [chunk_text] does not return. *)
Fixpoint upload_loop `{EmbeddingProvider} `{Unicode} `{Extractors}
    (st : app) (files : list UploadFile) (saved : list pystr)
  : option (app * result (list pystr)) :=
  match files with
  | [] => Some (st, Ok saved)
  | f :: rest =>
      let dest := upload_path (filename f) in
      let st := {| retr := retr st; disk := disk st;
                   uploads := write_upload (uploads st) dest (upload_bytes f);
                   qa_log := qa_log st |} in
      let saved := saved ++ [dest] in
      match parse_and_chunk_file (uploads st) dest with
      | None => None
      | Some (Raise e) => Some (st, Raise e)
      | Some (Ok texts) =>
          match add_documents (retr st) texts
                  (repeat dest (List.length texts)) with
          | Raise e => Some (st, Raise e)
          | Ok r =>
              upload_loop {| retr := r; disk := disk st; uploads := uploads st;
                             qa_log := qa_log st |} rest saved
          end
      end
  end.

(** The JSON body of the answer of [/upload]. *)
Record upload_response := { status : pystr; files : list pystr }.

Definition upload_files `{EmbeddingProvider} `{Unicode} `{Extractors}
    (st : app) (uploaded : list UploadFile) (reset_index : bool)
    (index_write : write_attempt IndexFlatL2)
    (meta_write : write_attempt (list meta))
  : option (app * result upload_response) :=
  match (if reset_index then reset (disk st) (retr st) true
         else Ok (retr st, disk st)) with
  | Raise e => Some (st, Raise e)
  | Ok (r, w) =>
      match upload_loop {| retr := r; disk := w; uploads := uploads st;
                           qa_log := qa_log st |} uploaded [] with
      | None => None
      | Some (st, Raise e) => Some (st, Raise e)
      | Some (st, Ok saved) =>
          Some ({| retr := retr st;
                   disk := save (disk st) (retr st) index_write meta_write;
                   uploads := uploads st; qa_log := qa_log st |},
                Ok {| status := str "ok"; files := saved |})
      end
  end.

(** How [/ask] can fail: with an exception of the retriever or of a
    model, or with the [TypeError] of [str.join] on a context that is
    [None]. *)
Inductive ask_error :=
| Propagated (e : exn)
| TypeError.

(** The JSON body of the answer of [/ask]. *)
Record ask_response := {
  resp_question : pystr;
  resp_answer : pystr;
  resp_contexts : list (option pystr)
}.

(** The contexts as [str.join] needs them: strings all. *)
Fixpoint all_str (contexts : list (option pystr)) : option (list pystr) :=
  match contexts with
  | [] => Some []
  | None :: _ => None
  | Some c :: rest =>
      match all_str rest with
      | Some cs => Some (c :: cs)
      | None => None
      end
  end.

Definition ask `{EmbeddingProvider} `{FaissSearch} `{LogFile} `{Unicode}
    (flan_model : pystr -> result (list generation))
    (roberta_model : pystr -> pystr -> result qa_result)
    (now : pystr) (st : app) (question model_name : pystr) (top_k : Z)
  : app * (ask_response + ask_error) :=
  match search (retr st) question top_k with
  | Raise e => (st, inr (Propagated e))
  | Ok hits =>
      let contexts := map hit_text hits in
      match all_str contexts with
      | None => (st, inr TypeError)
      | Some texts =>
          let answered :=
            if str_eqb model_name (str "google/flan-t5-small")
            then answer_with_flan_t5 flan_model now question texts (qa_log st)
            else answer_with_roberta roberta_model now question texts (qa_log st) in
          match answered with
          | Raise e => (st, inr (Propagated e))
          | Ok (answer, log) =>
              ({| retr := retr st; disk := disk st; uploads := uploads st;
                  qa_log := log |},
               inl {| resp_question := question; resp_answer := answer;
                      resp_contexts := contexts |})
          end
      end
  end.

(* ================================================================= *)
(** * Sample inputs *)

Definition sample_text : pystr := str "abcdefghij".

Definition sample_chunks : list pystr :=
  [str "abcd"; str "defg"; str "ghij"; str "j"].

Definition long_text : pystr := repeat 97%N 1500.

Definition short_text : pystr := repeat 97%N 750.

(** The float [0.05]. *)
Definition low_score : spec_float := S754_finite false 7205759403792794 (-57).

Definition sample_model (question context : pystr) : result qa_result :=
  Ok {| qa_answer := Some (str "Paris"); qa_score := Some low_score |}.

(** A provider of dimension 3 that embeds a text as its length, three
    times. *)
Definition toy_provider : EmbeddingProvider :=
  {| dimension := 3;
     encode_dtype := float32;
     embed := fun t =>
       repeat (binary_normalize 24 128 (Z.of_nat (List.length t)) 0 false) 3 |}.

(** A backend that answers every query with the first [k] positions, at
    distance zero, and [-1] where the index has no more vectors. *)
Definition toy_search : FaissSearch :=
  {| index_search := fun ix q k =>
       if k <=? 0 then Raise AssertionError
       else
         let pos := map Z.of_nat (seq 0 (Z.to_nat k)) in
         Ok ([map (fun _ => S754_zero false) pos],
             [map (fun i => if i <? Z.of_nat (ntotal ix) then i else -1) pos]) |}.

(** An index of dimension 5 with one vector, persisted by a provider
    other than [toy_provider]. *)
Definition stale_index : IndexFlatL2 :=
  {| ix_d := 5; ix_xb := [repeat (S754_zero false) 5] |}.

Definition stale_world : world :=
  {| faiss := true; index_file := Readable stale_index; meta_file := Absent;
     index_locked := false; meta_locked := false |}.

Definition empty_world : world :=
  {| faiss := true; index_file := Absent; meta_file := Absent;
     index_locked := false; meta_locked := false |}.

(** A world whose index file cannot be removed. *)
Definition locked_world : world :=
  {| faiss := true; index_file := Readable stale_index; meta_file := Absent;
     index_locked := true; meta_locked := false |}.

Definition fresh_retriever : Retriever :=
  {| dim := 3; index := Some (new_IndexFlatL2 3); metadatas := [] |}.

Definition sample_calls : list (list pystr * list pystr) :=
  [([str "a"; str "bc"], [str "doc.txt"; str "doc.txt"]);
   ([str "d"], [str "e.txt"])].

(** A log that can be written, and a question with a lone surrogate. *)
Definition open_log : LogFile := {| log_writable := true |}.

Definition surrogate_question : pystr := str "Where" ++ [55296%N].

(** A model whose score is not a number. *)
Definition nan_model (question context : pystr) : result qa_result :=
  Ok {| qa_answer := Some (str " Paris "); qa_score := Some S754_nan |}.

Definition unsure_model (prompt : pystr) : result (list generation) :=
  Ok [{| generated_text := Some (str "Sorry, I DON'T KNOW that.") |}].

(** Lower case of the letters A to Z only. *)
Definition ascii_lower : Unicode :=
  {| lower := map (fun c => if (65 <=? c) && (c <=? 90) then c + 32 else c)%N |}.

(** The suffix of a name from its last dot on. *)
Fixpoint from_last_dot (s : pystr) : pystr :=
  match s with
  | [] => []
  | c :: s' =>
      match from_last_dot s' with
      | [] => if (c =? 46)%N then s else []
      | found => found
      end
  end.

(** Extractors that read a text file as it is and know no other
    format. *)
Definition toy_extractors : Extractors :=
  {| suffix := from_last_dot;
     upload_path := fun name => str "uploads/" ++ name;
     decode_text := fun b => b;
     pdfplumber_pages := fun _ => Raise ValueError;
     pypdf_pages := fun _ => Raise ValueError;
     docx_paragraphs := fun _ => Raise ValueError;
     xlsx_text := fun _ => Raise ValueError |}.

Definition sample_store : store :=
  fun path => if str_eqb path (str "uploads/notes.md") then Some (str "hello")
              else None.

Definition sample_upload : UploadFile :=
  {| filename := str "notes.md"; upload_bytes := str "hello world" |}.

Definition sample_app : app :=
  {| retr := fresh_retriever; disk := empty_world; uploads := sample_store;
     qa_log := [] |}.

(** The retriever a [toy_provider] service is constructed with over
    [stale_world]. *)
Definition stale_retriever : Retriever :=
  {| dim := 3; index := Some stale_index; metadatas := [] |}.

(** [fresh_retriever] after two documents were added, and what a
    search on it returns. *)
Definition two_docs : Retriever :=
  Eval vm_compute in
    match @add_documents toy_provider fresh_retriever
            [str "a"; str "bc"] [str "x.txt"; str "y.txt"] with
    | Ok r => r
    | Raise _ => fresh_retriever
    end.

Definition two_hits : list hit :=
  Eval vm_compute in
    match @search toy_provider toy_search two_docs (str "q") 2 with
    | Ok hits => hits
    | Raise _ => []
    end.

Definition one_record : Retriever :=
  {| dim := 3;
     index := Some {| ix_d := 3; ix_xb := [repeat (S754_zero false) 3] |};
     metadatas := [{| meta_text := Some (str "a chunk");
                      meta_source := Some (str "doc.txt") |}] |}.

(** [sample_app] after the upload of [sample_upload] with a reset, and
    the answer of the upload. *)
Definition uploaded_app : app :=
  Eval vm_compute in
    match @upload_files toy_provider ascii_lower toy_extractors sample_app
            [sample_upload] true Succeeds Succeeds with
    | Some (st, _) => st
    | None => sample_app
    end.

Definition uploaded_response : upload_response :=
  Eval vm_compute in
    match @upload_files toy_provider ascii_lower toy_extractors sample_app
            [sample_upload] true Succeeds Succeeds with
    | Some (_, Ok resp) => resp
    | _ => {| status := []; files := [] |}
    end.

(** An application over [one_record], and what [/ask] gives on it. *)
Definition asked_app : app :=
  {| retr := one_record; disk := empty_world; uploads := sample_store;
     qa_log := [] |}.

Definition asked_result : app * (ask_response + ask_error) :=
  Eval vm_compute in
    @ask toy_provider toy_search open_log ascii_lower unsure_model nan_model
      (str "now") asked_app (str "Where?") (str "roberta") 3.

(* ================================================================= *)
(** * Facts about the Python primitives *)

Section SequenceFacts.
Context {A : Type}.
Implicit Types s : list A.

Lemma replace_empty_nil s : replace_empty [] s = s.
Proof.
  unfold replace_empty; simpl.
  induction s as [|c s IH]; simpl; [reflexivity | now rewrite IH].
Qed.

Lemma adjust_index_min len i :
  0 <= len -> adjust_index len (Z.min i len) = adjust_index len i.
Proof.
  intros Hlen; unfold adjust_index.
  destruct (Z.ltb_spec i 0), (Z.ltb_spec (Z.min i len) 0); lia.
Qed.

(** Clamping the stop bound to the length beforehand, as the loop
    does, changes nothing. *)
Lemma pyslice_min_stop s a b :
  pyslice s a (Z.min b (Z.of_nat (List.length s))) = pyslice s a b.
Proof.
  unfold pyslice; cbv zeta.
  rewrite adjust_index_min by lia; reflexivity.
Qed.

(** With bounds that are not negative, a slice is [firstn] of
    [skipn]. *)
Lemma pyslice_nonneg s a b :
  0 <= a -> 0 <= b ->
  pyslice s a b = firstn (Z.to_nat (b - a)) (skipn (Z.to_nat a) s).
Proof.
  intros Ha Hb; unfold pyslice, adjust_index; cbv zeta.
  destruct (Z.ltb_spec a 0), (Z.ltb_spec b 0); try lia.
  destruct (Z.le_gt_cases a (Z.of_nat (List.length s))) as [Hin|Hout].
  - rewrite (Z.min_l a) by lia.
    destruct (Z.le_gt_cases b (Z.of_nat (List.length s))).
    + rewrite (Z.min_l b) by lia; reflexivity.
    + rewrite (Z.min_r b) by lia.
      rewrite !firstn_all2; try reflexivity; rewrite length_skipn; lia.
  - rewrite (Z.min_r a) by lia.
    rewrite !skipn_all2 by lia.
    now rewrite !firstn_nil.
Qed.
End SequenceFacts.

(* ================================================================= *)
(** * Facts about the loop of the chunker *)

Section LoopFacts.
Variables (text : pystr) (chunk_size overlap length : Z).

Local Abbreviation body := (loop_body text chunk_size overlap length).
Local Abbreviation loop := (while_loop text chunk_size overlap length).
Local Abbreviation exec := (while_exec text chunk_size overlap length).

(** A run that returns with some fuel is a run of the loop. *)
Lemma while_loop_exec fuel : forall st res,
  loop fuel st = Some res -> exec st res.
Proof.
  induction fuel as [|fuel IH]; intros st res Hrun; simpl in Hrun.
  - discriminate.
  - destruct (Z.ltb_spec (start st) length) as [Hlt|Hge].
    + apply while_iter; [assumption | now apply IH].
    + injection Hrun as <-. apply while_exit; lia.
Qed.

(** A run of the loop returns with enough fuel, and with any more. *)
Lemma while_exec_loop st res :
  exec st res ->
  exists fuel, forall fuel', (fuel <= fuel')%nat -> loop fuel' st = Some res.
Proof.
  induction 1 as [st Hge | st res Hlt _ [fuel IH]].
  - exists 1%nat; intros [|fuel'] Hle; [lia|]; simpl.
    destruct (Z.ltb_spec (start st) length); [lia | reflexivity].
  - exists (S fuel); intros [|fuel'] Hle; [lia|]; simpl.
    destruct (Z.ltb_spec (start st) length); [|lia].
    apply IH; lia.
Qed.

(** The loop has at most one result. *)
Lemma while_exec_deterministic st r1 :
  exec st r1 -> forall r2, exec st r2 -> r1 = r2.
Proof.
  induction 1 as [st Hge | st res Hlt _ IH]; intros r2 H2.
  - inversion H2; subst; [reflexivity | contradiction].
  - inversion H2; subst; [contradiction | now apply IH].
Qed.

(** When the step is not positive, a loop that is entered is never
    left: the condition [start < length] holds at every test. *)
Lemma while_loop_stuck fuel :
  chunk_size <= overlap ->
  forall st, start st < length -> loop fuel st = None.
Proof.
  intros Hstep; induction fuel as [|fuel IH]; intros st Hlt; simpl.
  - reflexivity.
  - destruct (Z.ltb_spec (start st) length); [|lia].
    apply IH; simpl; lia.
Qed.
End LoopFacts.

(** What [chunk_text] returns with some fuel, it returns as a relation,
    and conversely. *)
Lemma chunk_text_fuel_returns fuel text chunk_size overlap res :
  chunk_text_fuel fuel text chunk_size overlap = Some res ->
  chunk_text_returns text chunk_size overlap res.
Proof.
  unfold chunk_text_fuel; destruct text as [|c text].
  - intros [= <-]; now apply returns_empty.
  - intros Hrun; apply returns_chunks; [discriminate|].
    eapply while_loop_exec; exact Hrun.
Qed.

Lemma chunk_text_returns_fuel text chunk_size overlap res :
  chunk_text_returns text chunk_size overlap res ->
  exists fuel, forall fuel', (fuel <= fuel')%nat ->
    chunk_text_fuel fuel' text chunk_size overlap = Some res.
Proof.
  intros [-> | res' Hne Hexec].
  - exists 0%nat; reflexivity.
  - destruct (while_exec_loop _ _ _ _ _ _ Hexec) as [fuel Hfuel].
    exists fuel; intros fuel' Hle; unfold chunk_text_fuel.
    destruct text; [contradiction | now apply Hfuel].
Qed.

Lemma chunk_text_returns_deterministic text chunk_size overlap r1 r2 :
  chunk_text_returns text chunk_size overlap r1 ->
  chunk_text_returns text chunk_size overlap r2 -> r1 = r2.
Proof.
  intros [-> | r1' Hne1 H1] [Hnil | r2' Hne2 H2];
    try reflexivity; try contradiction.
  eapply while_exec_deterministic; eassumption.
Qed.

(** With [overlap >= chunk_size] and a text that is not empty, no amount
    of fuel lets [chunk_text] return. *)
Lemma chunk_text_diverges text chunk_size overlap :
  text <> [] -> chunk_size <= overlap ->
  (forall fuel, chunk_text_fuel fuel text chunk_size overlap = None) /\
  (forall res, ~ chunk_text_returns text chunk_size overlap res).
Proof.
  intros Hne Hstep.
  assert (Hall : forall fuel, chunk_text_fuel fuel text chunk_size overlap = None).
  { intros fuel; unfold chunk_text_fuel.
    destruct text as [|c text']; [contradiction|].
    apply while_loop_stuck; [assumption|].
    rewrite replace_empty_nil; simpl; lia. }
  split; [exact Hall|].
  intros res Hret.
  destruct (chunk_text_returns_fuel _ _ _ _ Hret) as [fuel Hfuel].
  specialize (Hfuel fuel (le_n _)); rewrite Hall in Hfuel; discriminate.
Qed.

(* ================================================================= *)
(** * The windows of the chunker *)

Section Windows.
Variables (text : pystr) (chunk_size overlap : Z).
Hypothesis step_pos : overlap < chunk_size.

Local Abbreviation step := (chunk_size - overlap).
Local Abbreviation len := (Z.of_nat (List.length text)).
Local Abbreviation count := (window_count text chunk_size overlap).

(** Window [i] starts inside the text exactly when [i < count]. *)
Lemma window_count_spec (i : nat) :
  Z.of_nat i * step < len <-> (i < count)%nat.
Proof.
  unfold window_count.
  pose proof (Z.div_mod (len + step - 1) step ltac:(lia)) as Hdm.
  pose proof (Z.mod_pos_bound (len + step - 1) step ltac:(lia)) as Hmod.
  set (q := (len + step - 1) / step) in *.
  assert (0 <= q) by (apply Z.div_pos; lia).
  split; intros Hi.
  - assert (Z.of_nat i < q) by nia. lia.
  - assert (Z.of_nat i + 1 <= q) by lia. nia.
Qed.

Lemma window_count_le_length : (count <= List.length text)%nat.
Proof.
  destruct (Nat.le_gt_cases count (List.length text)) as [|Hgt]; [assumption|].
  exfalso.
  apply (proj2 (window_count_spec (List.length text))) in Hgt. nia.
Qed.

(** Entered at the start of window [i] with [m] windows left, the loop
    appends these [m] windows and exits. *)
Lemma while_loop_windows (m : nat) : forall (i fuel : nat) acc,
  (i + m)%nat = count -> (m < fuel)%nat ->
  while_loop text chunk_size overlap len fuel
    {| start := Z.of_nat i * step; chunks := acc |}
  = Some (acc ++ map (window text chunk_size overlap) (seq i m)).
Proof.
  induction m as [|m IH]; intros i fuel acc Hcount Hfuel;
    destruct fuel as [|fuel]; try lia; simpl.
  - destruct (Z.ltb_spec (Z.of_nat i * step) len) as [Hlt|Hge].
    + apply window_count_spec in Hlt; lia.
    + now rewrite app_nil_r.
  - destruct (Z.ltb_spec (Z.of_nat i * step) len) as [Hlt|Hge].
    + unfold loop_body; simpl.
      rewrite pyslice_min_stop.
      replace (Z.of_nat i * step + step) with (Z.of_nat (S i) * step) by lia.
      rewrite IH by lia.
      rewrite <- app_assoc; reflexivity.
    + assert (Hi : (i < count)%nat) by lia.
      apply window_count_spec in Hi; lia.
Qed.

(** The closed form of [chunk_text] under [overlap < chunk_size]. *)
Lemma chunk_text_fuel_windows fuel :
  text <> [] -> (count < fuel)%nat ->
  chunk_text_fuel fuel text chunk_size overlap
  = Some (map (window text chunk_size overlap) (seq 0 count)).
Proof.
  intros Hne Hfuel.
  pose proof (while_loop_windows count 0 fuel [] eq_refl Hfuel) as Hrun.
  unfold chunk_text_fuel; rewrite replace_empty_nil.
  destruct text; [contradiction | exact Hrun].
Qed.

Lemma chunk_text_windows_eq :
  text <> [] ->
  chunk_text text chunk_size overlap
  = Some (map (window text chunk_size overlap) (seq 0 count)).
Proof.
  intros Hne; apply chunk_text_fuel_windows; [assumption|].
  pose proof window_count_le_length; lia.
Qed.

Lemma nth_windows (i : nat) :
  (i < count)%nat ->
  nth_error (map (window text chunk_size overlap) (seq 0 count)) i
  = Some (window text chunk_size overlap i).
Proof.
  intros Hi.
  rewrite nth_error_map, nth_error_seq.
  destruct (Nat.ltb_spec i count); [reflexivity | lia].
Qed.

(** With [0 <= overlap], a window is [chunk_size] characters from its
    start, or as many as the text still has. *)
Lemma window_firstn_skipn (i : nat) :
  0 <= overlap ->
  window text chunk_size overlap i
  = firstn (Z.to_nat chunk_size) (skipn (Z.to_nat (Z.of_nat i * step)) text).
Proof.
  intros Hov; unfold window.
  rewrite pyslice_nonneg by nia.
  f_equal; lia.
Qed.

Lemma window_length (i : nat) :
  0 <= overlap -> Z.of_nat i * step <= len ->
  Z.of_nat (List.length (window text chunk_size overlap i))
  = Z.min chunk_size (len - Z.of_nat i * step).
Proof.
  intros Hov Hin.
  rewrite window_firstn_skipn, length_firstn, length_skipn by assumption.
  assert (Hpos : 0 <= Z.of_nat i * step) by nia.
  revert Hin Hpos; generalize (Z.of_nat i * step); intros a Hin Hpos.
  lia.
Qed.

(** The overlap of two consecutive windows. *)
Lemma window_overlap (i : nat) :
  0 <= overlap ->
  skipn (Z.to_nat step) (window text chunk_size overlap i)
  = firstn (Z.to_nat overlap) (window text chunk_size overlap (S i)).
Proof.
  intros Hov.
  rewrite !window_firstn_skipn by assumption.
  rewrite skipn_firstn_comm, skipn_skipn, firstn_firstn.
  replace (Z.of_nat (S i) * step) with (step + Z.of_nat i * step) by lia.
  rewrite Z2Nat.inj_add by nia.
  f_equal; lia.
Qed.
End Windows.

(* ================================================================= *)
(** * Properties of the chunker *)

(** C2 (as the code behaves): [chunk_text] has no guard for
    [overlap >= chunk_size].  On the call
    [chunk_text("a", chunk_size=1, overlap=1)] the loop is entered and
    never left: no amount of fuel makes the call return, and no result
    is related to it. *)
Theorem chunk_text_overlap_unguarded :
  (forall fuel, chunk_text_fuel fuel (str "a") 1 1 = None) /\
  (forall res, ~ chunk_text_returns (str "a") 1 1 res).
Proof. apply chunk_text_diverges; [discriminate | lia]. Qed.

(** C9: [chunk_text] is deterministic.  Two returns of a call on the
    same text, chunk size and overlap give the same list of chunks, and
    every bounded run that returns gives that list too; the function
    reads nothing but its three arguments. *)
Theorem chunk_text_deterministic (text : pystr) (chunk_size overlap : Z)
    (r1 r2 : list pystr) :
  chunk_text_returns text chunk_size overlap r1 ->
  chunk_text_returns text chunk_size overlap r2 ->
  r1 = r2 /\
  (forall fuel r, chunk_text_fuel fuel text chunk_size overlap = Some r -> r = r1).
Proof.
  intros H1 H2; split.
  - eapply chunk_text_returns_deterministic; eassumption.
  - intros fuel r Hrun.
    eapply chunk_text_returns_deterministic;
      [eapply chunk_text_fuel_returns|]; eassumption.
Qed.

Lemma chunk_text_deterministic_witness :
  chunk_text_returns sample_text 4 1 sample_chunks /\
  sample_chunks = sample_chunks.
Proof.
  assert (H : chunk_text_returns sample_text 4 1 sample_chunks)
    by (apply (chunk_text_fuel_returns 11); reflexivity).
  split; [exact H|].
  exact (proj1 (chunk_text_deterministic sample_text 4 1 _ _ H H)).
Defined.

(** C7 (as the code behaves): for a text that is not empty and
    [overlap < chunk_size], [chunk_text] returns, and chunk [i] is
    [text[i*(chunk_size-overlap) : i*(chunk_size-overlap)+chunk_size]];
    there is one chunk for every window that starts inside the text.
    With [0 <= overlap] (as at 800 and 100) the last [chunk_size-overlap]
    characters dropped from a chunk leave the first [overlap] characters
    of the next one, and these are exactly [overlap] characters when the
    chunk has full size; a chunk is shorter than [chunk_size] exactly
    when its window runs past the end of the text; and with
    [2*overlap <= chunk_size] (as at 800 and 100) every chunk but the
    last two has full size. *)
Theorem chunk_text_windowing (text : pystr) (chunk_size overlap : Z) :
  text <> [] -> overlap < chunk_size ->
  exists cks,
    chunk_text text chunk_size overlap = Some cks /\
    (forall fuel, (List.length text < fuel)%nat ->
       chunk_text_fuel fuel text chunk_size overlap = Some cks) /\
    List.length cks = window_count text chunk_size overlap /\
    (forall i, (i < List.length cks)%nat ->
       nth_error cks i =
       Some (pyslice text (Z.of_nat i * (chunk_size - overlap))
                          (Z.of_nat i * (chunk_size - overlap) + chunk_size))) /\
    (0 <= overlap -> forall i ci cj,
       nth_error cks i = Some ci -> nth_error cks (S i) = Some cj ->
       skipn (Z.to_nat (chunk_size - overlap)) ci = firstn (Z.to_nat overlap) cj /\
       (Z.of_nat (List.length ci) = chunk_size ->
        Z.of_nat (List.length (firstn (Z.to_nat overlap) cj)) = overlap)) /\
    (0 <= overlap -> forall i ci,
       nth_error cks i = Some ci ->
       (Z.of_nat (List.length ci) < chunk_size <->
        Z.of_nat (List.length text) < Z.of_nat i * (chunk_size - overlap) + chunk_size)) /\
    (0 <= overlap -> 2 * overlap <= chunk_size -> forall i ci,
       nth_error cks i = Some ci -> (i + 2 < List.length cks)%nat ->
       Z.of_nat (List.length ci) = chunk_size).
Proof.
  intros Hne Hstep.
  pose proof (window_count_le_length text chunk_size overlap Hstep) as Hcount.
  pose proof (window_count_spec text chunk_size overlap Hstep) as Hspec.
  set (n := window_count text chunk_size overlap) in *.
  exists (map (window text chunk_size overlap) (seq 0 n)).
  assert (Hlen : List.length (map (window text chunk_size overlap) (seq 0 n)) = n)
    by now rewrite length_map, length_seq.
  assert (Hnth : forall i c,
             nth_error (map (window text chunk_size overlap) (seq 0 n)) i = Some c ->
             (i < n)%nat /\ c = window text chunk_size overlap i).
  { intros i c Hi.
    assert (Hin : (i < n)%nat)
      by (rewrite <- Hlen; apply nth_error_Some; congruence).
    split; [assumption|].
    unfold n in Hi, Hin; rewrite nth_windows in Hi by assumption; congruence. }
  assert (Hwlen : 0 <= overlap -> forall i, (i < n)%nat ->
             Z.of_nat (List.length (window text chunk_size overlap i))
             = Z.min chunk_size
                 (Z.of_nat (List.length text) - Z.of_nat i * (chunk_size - overlap))).
  { intros Hov i Hi; apply window_length; try assumption.
    apply Hspec in Hi; lia. }
  split; [now apply chunk_text_windows_eq|].
  split.
  { intros fuel Hfuel; apply chunk_text_fuel_windows; try assumption.
    fold n; lia. }
  split; [exact Hlen|].
  split.
  { intros i Hi; rewrite Hlen in Hi.
    unfold n; now rewrite nth_windows. }
  split.
  { intros Hov i ci cj Hci Hcj.
    apply Hnth in Hci as [Hi ->]; apply Hnth in Hcj as [Hj ->].
    split; [now apply window_overlap|].
    intros Hfull.
    rewrite Hwlen in Hfull by assumption.
    rewrite length_firstn, Nat2Z.inj_min, Hwlen by assumption.
    apply Hspec in Hj; lia. }
  split.
  { intros Hov i ci Hci.
    apply Hnth in Hci as [Hi ->]; rewrite Hwlen by assumption.
    apply Hspec in Hi; lia. }
  intros Hov Hhalf i ci Hci Hlast.
  apply Hnth in Hci as [Hi ->]; rewrite Hwlen by assumption.
  rewrite Hlen in Hlast; apply Hspec in Hlast; lia.
Qed.

Lemma chunk_text_windowing_witness :
  long_text <> [] /\ 100 < 800 /\
  exists cks,
    chunk_text long_text 800 100 = Some cks /\
    List.length cks = window_count long_text 800 100.
Proof.
  assert (Hne : long_text <> []) by discriminate.
  assert (Hlt : 100 < 800) by reflexivity.
  split; [exact Hne|]; split; [exact Hlt|].
  destruct (chunk_text_windowing long_text 800 100 Hne Hlt)
    as (cks & Hrun & _ & Hlen & _).
  exists cks; split; assumption.
Defined.

(** C7 as stated fails: at 800 and 100, a text of 750 characters gives
    two chunks, of 750 and of 50 characters, so a chunk that is not the
    final one is shorter than [chunk_size]. *)
Lemma only_final_chunk_short_fails :
  exists cks c0,
    short_text <> [] /\
    chunk_text short_text 800 100 = Some cks /\
    nth_error cks 0 = Some c0 /\
    (1 < List.length cks)%nat /\
    Z.of_nat (List.length c0) < 800.
Proof.
  exists [repeat 97%N 750; repeat 97%N 50], (repeat 97%N 750).
  split; [discriminate|].
  split; [vm_compute; reflexivity|].
  split; [reflexivity|].
  split; [simpl; lia|].
  rewrite repeat_length; reflexivity.
Qed.

(** C10 (as the code behaves): for a text with
    [chunk_size - overlap < len(text) <= chunk_size] and
    [len(text) <= 2*(chunk_size - overlap)] (as at 800 and 100),
    [chunk_text] returns exactly two chunks: the whole text, then its
    last [len(text) - (chunk_size - overlap)] characters, a suffix of
    the first chunk. *)
Theorem chunk_text_redundant_tail (text : pystr) (chunk_size overlap : Z) :
  chunk_size - overlap < Z.of_nat (List.length text) <= chunk_size ->
  Z.of_nat (List.length text) <= 2 * (chunk_size - overlap) ->
  let tail := skipn (Z.to_nat (chunk_size - overlap)) text in
  chunk_text text chunk_size overlap = Some [text; tail] /\
  (forall fuel, (2 < fuel)%nat ->
     chunk_text_fuel fuel text chunk_size overlap = Some [text; tail]) /\
  Z.of_nat (List.length tail)
  = Z.of_nat (List.length text) - (chunk_size - overlap) /\
  text = firstn (Z.to_nat (chunk_size - overlap)) text ++ tail.
Proof.
  intros Hlen Htwice tail.
  assert (Hstep : overlap < chunk_size) by lia.
  assert (Hov : 0 <= overlap) by lia.
  assert (Hne : text <> []) by (intros ->; simpl in *; lia).
  pose proof (window_count_spec text chunk_size overlap Hstep) as Hspec.
  assert (Hcount : window_count text chunk_size overlap = 2%nat).
  { pose proof (proj1 (Hspec 1%nat)) as H1.
    pose proof (proj2 (Hspec 2%nat)) as H2.
    destruct (Nat.lt_ge_cases 2 (window_count text chunk_size overlap)); lia. }
  assert (Hw0 : window text chunk_size overlap 0 = text).
  { rewrite window_firstn_skipn by assumption; simpl.
    apply firstn_all2; lia. }
  assert (Hw1 : window text chunk_size overlap 1 = tail).
  { rewrite window_firstn_skipn by assumption.
    replace (Z.of_nat 1 * (chunk_size - overlap)) with (chunk_size - overlap) by lia.
    unfold tail; rewrite firstn_all2; [reflexivity|].
    rewrite length_skipn; lia. }
  assert (Hfuel : forall fuel, (2 < fuel)%nat ->
            chunk_text_fuel fuel text chunk_size overlap = Some [text; tail]).
  { intros fuel Hf.
    rewrite chunk_text_fuel_windows by (try assumption; lia).
    rewrite Hcount; simpl; now rewrite Hw0, Hw1. }
  split; [apply Hfuel; lia|].
  split; [exact Hfuel|].
  split; [unfold tail; rewrite length_skipn; lia|].
  symmetry; apply firstn_skipn.
Qed.

Lemma chunk_text_redundant_tail_witness :
  (4 - 1 < Z.of_nat (List.length (str "abcd")) <= 4) /\
  Z.of_nat (List.length (str "abcd")) <= 2 * (4 - 1) /\
  chunk_text (str "abcd") 4 1 = Some [str "abcd"; str "d"].
Proof.
  assert (H1 : 4 - 1 < Z.of_nat (List.length (str "abcd")) <= 4)
    by (split; [reflexivity | discriminate]).
  assert (H2 : Z.of_nat (List.length (str "abcd")) <= 2 * (4 - 1))
    by discriminate.
  split; [exact H1|]; split; [exact H2|].
  exact (proj1 (chunk_text_redundant_tail (str "abcd") 4 1 H1 H2)).
Defined.

(** C10 as stated fails: with [chunk_size = 4] and [overlap = 3] the
    text ["abcd"] has [chunk_size - overlap < len(text) <= chunk_size],
    and [chunk_text] returns four chunks. *)
Lemma two_chunks_fails :
  (4 - 3 < Z.of_nat (List.length (str "abcd")) <= 4) /\
  chunk_text (str "abcd") 4 3
  = Some [str "abcd"; str "bcd"; str "cd"; str "d"] /\
  (forall tail, ~ chunk_text_returns (str "abcd") 4 3 [str "abcd"; tail]).
Proof.
  split; [split; [reflexivity | discriminate]|].
  split; [reflexivity|].
  intros tail Hret.
  assert (Hrun : chunk_text_returns (str "abcd") 4 3
                   [str "abcd"; str "bcd"; str "cd"; str "d"])
    by (apply (chunk_text_fuel_returns 5); reflexivity).
  pose proof (chunk_text_returns_deterministic _ _ _ _ _ Hret Hrun) as Heq.
  discriminate Heq.
Qed.

(* ================================================================= *)
(** * Properties of the extractive strategy *)

Lemma sentinel_encodable : encodable sentinel = true.
Proof. reflexivity. Qed.

(** C8 (as the code behaves): whenever the model returns a span that is
    empty (also once stripped) or a score below [0.1], the answer
    [answer_with_roberta] computes and logs is the sentinel answer: the
    call returns it when the write to the log succeeds, as it does when
    the log can be opened and the question can be encoded, and raises
    what the write raised otherwise.  The condition itself raises
    nothing. *)
Theorem extractive_normalization {L : LogFile}
    (roberta_model : pystr -> pystr -> result qa_result)
    (now question : pystr) (contexts : list pystr) (log : list log_entry)
    (r : qa_result) :
  roberta_model question (join [10%N] contexts) = Ok r ->
  dict_get (qa_answer r) [] = [] \/
  strip (dict_get (qa_answer r) []) = [] \/
  SFltb (dict_get (qa_score r) zero_score) threshold = true ->
  answer_with_roberta roberta_model now question contexts log
  = match log_qa_interaction now question sentinel
            (Some (dict_get (qa_score r) zero_score)) log with
    | Ok log' => Ok (sentinel, log')
    | Raise e => Raise e
    end /\
  (log_writable = true -> encodable question = true ->
   answer_with_roberta roberta_model now question contexts log
   = Ok (sentinel,
         log ++ [{| log_timestamp := now; log_question := question;
                    log_answer := sentinel;
                    log_confidence :=
                      Some (dict_get (qa_score r) zero_score) |}])).
Proof.
  intros Hmodel Hlow; unfold answer_with_roberta; rewrite Hmodel.
  assert (Hcond : not_ (strip (dict_get (qa_answer r) []))
                  || SFltb (dict_get (qa_score r) zero_score) threshold = true).
  { destruct Hlow as [Hraw | [Hstrip | Hscore]].
    - rewrite Hraw; reflexivity.
    - rewrite Hstrip; reflexivity.
    - rewrite Hscore; apply orb_true_r. }
  rewrite Hcond; split.
  - destruct (log_qa_interaction now question sentinel _ log); reflexivity.
  - intros Hopen Hquestion; unfold log_qa_interaction.
    rewrite Hopen, Hquestion, sentinel_encodable; reflexivity.
Qed.

Lemma extractive_normalization_witness :
  sample_model (str "Where?") (join [10%N] [str "In Paris."])
  = Ok {| qa_answer := Some (str "Paris"); qa_score := Some low_score |} /\
  @answer_with_roberta open_log sample_model (str "now") (str "Where?")
    [str "In Paris."] []
  = Ok (sentinel,
        [{| log_timestamp := str "now"; log_question := str "Where?";
            log_answer := sentinel; log_confidence := Some low_score |}]).
Proof.
  split; [reflexivity|].
  apply (proj2 (@extractive_normalization open_log sample_model (str "now")
                  (str "Where?") [str "In Paris."] []
                  {| qa_answer := Some (str "Paris");
                     qa_score := Some low_score |}
                  eq_refl (or_intror (or_intror eq_refl))));
    reflexivity.
Defined.

(** C8 as stated fails: the model returns a score below [0.1] for a
    question that holds a lone surrogate; the log can be opened, the
    line cannot be encoded, and the call raises instead of returning
    the sentinel answer. *)
Lemma surrogate_question_raises :
  sample_model surrogate_question (join [10%N] [str "In Paris."])
  = Ok {| qa_answer := Some (str "Paris"); qa_score := Some low_score |} /\
  SFltb low_score threshold = true /\
  @answer_with_roberta open_log sample_model (str "now") surrogate_question
    [str "In Paris."] []
  = Raise UnicodeEncodeError.
Proof. repeat split. Qed.

(* ================================================================= *)
(** * Facts about the retriever *)

Lemma append_records_app (ms : list meta) (texts sources : list pystr) :
  append_records ms texts sources = ms ++ map record_of (combine texts sources).
Proof.
  unfold append_records.
  revert ms; induction (combine texts sources) as [|ts rest IH]; intros ms; simpl.
  - now rewrite app_nil_r.
  - rewrite IH, <- app_assoc; reflexivity.
Qed.

Lemma py_getitem_valid {A : Type} (s : list A) (i : Z) :
  0 <= i < Z.of_nat (List.length s) ->
  exists a, nth_error s (Z.to_nat i) = Some a /\ py_getitem s i = Ok a.
Proof.
  intros Hi; unfold py_getitem.
  destruct (Z.ltb_spec i 0); [lia|].
  destruct (Z.ltb_spec i 0); [lia|].
  destruct (Z.leb_spec (Z.of_nat (List.length s)) i); [lia|]; simpl.
  destruct (nth_error s (Z.to_nat i)) as [a|] eqn:E.
  - exists a; split; reflexivity.
  - apply nth_error_None in E; lia.
Qed.

(** The loop of [search] never raises: it returns the results of the
    pairs whose position is valid, after those it was entered with. *)
Lemma collect_hits_lookup (ms : list meta) (pairs : list (spec_float * Z)) :
  forall results,
    collect_hits ms pairs results = Ok (results ++ lookup_hits ms pairs).
Proof.
  induction pairs as [|[score idx] rest IH]; intros results; simpl.
  - now rewrite app_nil_r.
  - unfold valid_position.
    destruct (Z.ltb_spec idx 0) as [Hneg|Hpos]; simpl.
    + destruct (Z.leb_spec 0 idx); [lia|]; simpl. apply IH.
    + destruct (Z.leb_spec 0 idx); [|lia]; simpl.
      unfold Z.geb; destruct (Z.compare_spec idx (Z.of_nat (List.length ms)))
        as [Heq|Hlt|Hgt].
      * destruct (Z.ltb_spec idx (Z.of_nat (List.length ms))); [lia|]. apply IH.
      * destruct (Z.ltb_spec idx (Z.of_nat (List.length ms))); [|lia].
        destruct (py_getitem_valid ms idx ltac:(lia)) as (m & Hnth & Hget).
        rewrite Hget, Hnth, IH, <- app_assoc; reflexivity.
      * destruct (Z.ltb_spec idx (Z.of_nat (List.length ms))); [lia|]. apply IH.
Qed.

Lemma lookup_hits_nil (pairs : list (spec_float * Z)) : lookup_hits [] pairs = [].
Proof.
  induction pairs as [|p rest IH]; simpl; [reflexivity|].
  unfold valid_position; simpl.
  destruct (0 <=? snd p), (snd p <? 0) eqn:E; simpl; try exact IH.
  destruct (Z.to_nat (snd p)); exact IH.
Qed.

Lemma lookup_hits_in (ms : list meta) (pairs : list (spec_float * Z)) (h : hit) :
  In h (lookup_hits ms pairs) <->
  exists score idx m,
    In (score, idx) pairs /\ 0 <= idx < Z.of_nat (List.length ms) /\
    nth_error ms (Z.to_nat idx) = Some m /\
    h = {| hit_score := score; hit_text := meta_text m;
           hit_source := meta_source m |}.
Proof.
  unfold lookup_hits; rewrite in_flat_map; split.
  - intros ([score idx] & Hin & Hh); simpl in Hh.
    unfold valid_position in Hh.
    destruct (Z.leb_spec 0 idx), (Z.ltb_spec idx (Z.of_nat (List.length ms)));
      simpl in Hh; try contradiction.
    destruct (nth_error ms (Z.to_nat idx)) as [m|] eqn:E; [|contradiction].
    destruct Hh as [<- | []].
    exists score, idx, m; repeat split; try assumption; lia.
  - intros (score & idx & m & Hin & Hrange & Hnth & ->).
    exists (score, idx); split; [assumption|]; simpl.
    unfold valid_position.
    destruct (Z.leb_spec 0 idx), (Z.ltb_spec idx (Z.of_nat (List.length ms)));
      try lia; simpl.
    rewrite Hnth; now left.
Qed.

Section RetrieverFacts.
Context {EP : EmbeddingProvider}.

Lemma astype_encode (texts : list pystr) :
texts <> [] ->
astype_float32 (model_encode texts)
= Arr2 float32 (Pos.to_nat dimension) (map stored_vector texts).
Proof.
intros Hne; destruct texts as [|t texts]; [contradiction|].
unfold model_encode, astype_float32, stored_vector; simpl.
now rewrite map_map.
Qed.

Lemma encode_two_dimensions (texts : list pystr) :
texts <> [] -> (ndim (model_encode texts) =? 1) = false.
Proof. destruct texts; [contradiction | reflexivity]. Qed.

(** [add_documents] of a batch that is not empty, on an index of the
    provider's dimension. *)
Lemma add_documents_ok (self : Retriever) (ix : IndexFlatL2)
  (texts sources : list pystr) :
texts <> [] ->
index self = Some ix -> ix_d ix = dimension ->
add_documents self texts sources
= Ok {| dim := dim self;
        index := Some {| ix_d := ix_d ix;
                         ix_xb := ix_xb ix ++ map stored_vector texts |};
        metadatas := metadatas self
                     ++ map record_of (combine texts sources) |}.
Proof.
intros Hne Hix Hd; unfold add_documents; cbv zeta.
rewrite (encode_two_dimensions texts Hne).
rewrite Hix, (astype_encode texts Hne); simpl.
rewrite Hd, Nat.eqb_refl, append_records_app; reflexivity.
Qed.

(** [add_documents] of the empty batch: the array of one dimension is
    expanded to one row of width 0, which no index takes. *)
Lemma add_documents_empty (self : Retriever) (ix : IndexFlatL2)
  (sources : list pystr) :
index self = Some ix ->
add_documents self [] sources = Raise AssertionError.
Proof.
intros Hix; unfold add_documents; simpl; rewrite Hix; simpl.
pose proof (Pos2Nat.is_pos (ix_d ix)) as Hpos.
destruct (Pos.to_nat (ix_d ix)); [lia | reflexivity].
Qed.

(** [add_documents] on an index of another dimension, or on no index. *)
Lemma add_documents_raise (self : Retriever) (texts sources : list pystr) :
(forall ix, index self = Some ix -> ix_d ix <> dimension) ->
exists e, add_documents self texts sources = Raise e.
Proof.
intros Hd.
destruct (index self) as [ix|] eqn:Hix.
- destruct texts as [|t texts].
  + exists AssertionError; now apply (add_documents_empty self ix).
  + unfold add_documents; cbv zeta.
    rewrite (encode_two_dimensions (t :: texts)) by discriminate.
    rewrite Hix, astype_encode by discriminate; simpl.
    destruct (Nat.eqb_spec (Pos.to_nat dimension) (Pos.to_nat (ix_d ix)))
      as [Heq|Hne].
    * exfalso; apply (Hd ix eq_refl); apply Pos2Nat.inj; congruence.
    * now exists AssertionError.
- exists AttributeError.
  unfold add_documents; cbv zeta; rewrite Hix.
  destruct (ndim (model_encode texts) =? 1); reflexivity.
Qed.

Lemma after_add_lockstep (self : Retriever) (call : list pystr * list pystr) :
lockstep self ->
List.length (fst call) = List.length (snd call) ->
lockstep (after_add self call).
Proof.
intros (ix & Hix & Hsize) Hlen; unfold after_add.
destruct (fst call) as [|t texts] eqn:Htexts.
- rewrite (add_documents_empty self ix _ Hix).
  exists ix; split; assumption.
- destruct (Pos.eq_dec (ix_d ix) dimension) as [Hd|Hd].
  + rewrite (add_documents_ok self ix (t :: texts) (snd call)
               ltac:(discriminate) Hix Hd).
    eexists; split; [reflexivity|].
    unfold ntotal in *; cbn [ix_xb metadatas].
    rewrite !length_app, !length_map, length_combine, Hsize, <- Hlen.
    lia.
  + destruct (add_documents_raise self (t :: texts) (snd call)) as [e He].
    * intros ix' Hix'; congruence.
    * rewrite He; exists ix; split; assumption.
Qed.

Lemma fold_after_add_lockstep (calls : list (list pystr * list pystr)) :
forall self,
  lockstep self ->
  Forall (fun c => List.length (fst c) = List.length (snd c)) calls ->
  lockstep (fold_left after_add calls self).
Proof.
induction calls as [|call calls IH]; intros self Hlock Hcalls; simpl.
- exact Hlock.
- inversion Hcalls; subst.
  apply IH; [now apply after_add_lockstep | assumption].
Qed.

(** [__init__] in full: what it returns in every world. *)
Lemma init_cases (w : world) :
__init__ w =
if faiss w then
  Ok {| dim := dimension;
        index := Some match index_file w with
                      | Readable ix => ix
                      | _ => new_IndexFlatL2 dimension
                      end;
        metadatas := match meta_file w with
                     | Readable ms => ms
                     | _ => []
                     end |}
else Raise (RuntimeError "faiss is required. Please install faiss-cpu or faiss-gpu.").
Proof.
unfold __init__, _load.
destruct w as [[|] [| |ix] [| |ms] il ml]; reflexivity.
Qed.
End RetrieverFacts.

(** What the guarded removal of [reset] leaves: nothing, unless there
    is an entry that cannot be removed, which stays. *)
Lemma try_remove_cases {A : Type} (locked : bool) (f : file A) :
  try_remove locked f = if locked then f else Absent.
Proof. destruct f, locked; reflexivity. Qed.

Lemma try_remove_twice {A : Type} (locked : bool) (f : file A) :
  try_remove locked (try_remove locked f) = try_remove locked f.
Proof. destruct f, locked; reflexivity. Qed.

Lemma reset_ok (w : world) (self : Retriever) (remove_files : bool) :
  faiss w = true ->
  reset w self remove_files
  = Ok ({| dim := dim self; index := Some (new_IndexFlatL2 (dim self));
           metadatas := [] |},
        if remove_files then remove_persisted w else w).
Proof.
  destruct w as [f i m il ml]; simpl; intros ->.
  destruct remove_files; reflexivity.
Qed.

Lemma remove_persisted_faiss (w : world) :
  faiss (remove_persisted w) = faiss w.
Proof. reflexivity. Qed.

Lemma remove_persisted_twice (w : world) :
  remove_persisted (remove_persisted w) = remove_persisted w.
Proof.
  unfold remove_persisted; simpl; now rewrite !try_remove_twice.
Qed.

Lemma reset_raise (w : world) (self : Retriever) (remove_files : bool) :
  faiss w = false ->
  reset w self remove_files
  = Raise (RuntimeError "faiss is required to create or reset the index").
Proof. intros Hf; unfold reset; rewrite Hf; reflexivity. Qed.

Lemma nth_error_combine {A B : Type} (l : list A) (l' : list B) :
  forall i a b,
    nth_error l i = Some a -> nth_error l' i = Some b ->
    nth_error (combine l l') i = Some (a, b).
Proof.
  revert l'; induction l as [|x l IH]; intros [|y l'] [|i] a b Ha Hb;
    simpl in *; try discriminate.
  - congruence.
  - now apply IH.
Qed.

Lemma nth_error_app_offset {A : Type} (l l' : list A) (i : nat) :
  nth_error (l ++ l') (List.length l + i) = nth_error l' i.
Proof.
  rewrite nth_error_app2 by lia.
  f_equal; lia.
Qed.

(* ================================================================= *)
(** * Properties of the retriever *)

Section RetrieverProperties.
Context {EP : EmbeddingProvider}.

(** C1 (as the code behaves): construction raises exactly when faiss is
  unavailable.  With faiss available it returns: with a fresh empty
  index of the provider's dimension when the index file is absent or
  unreadable, and with the index read from the file, whatever its
  dimension, when the file is readable; the metadata are those of the
  metadata file, or empty when that file is absent or unreadable. *)
Theorem construction_fail_open (w : world) :
(faiss w = false -> exists msg, __init__ w = Raise (RuntimeError msg)) /\
(faiss w = true ->
 exists r,
   __init__ w = Ok r /\
   (index_file w = Absent \/ index_file w = Unreadable ->
    index r = Some (new_IndexFlatL2 dimension)) /\
   (forall ix, index_file w = Readable ix -> index r = Some ix) /\
   (meta_file w = Absent \/ meta_file w = Unreadable -> metadatas r = []) /\
   (forall ms, meta_file w = Readable ms -> metadatas r = ms)).
Proof.
rewrite init_cases; split; intros Hf; rewrite Hf.
- eexists; reflexivity.
- eexists; split; [reflexivity|]; simpl.
  split; [intros [-> | ->]; reflexivity|].
  split; [intros ix ->; reflexivity|].
  split; [intros [-> | ->]; reflexivity|].
  intros ms ->; reflexivity.
Qed.

(** C3: the index and the metadata stay in lockstep.  From a state where
  their sizes agree, any sequence of [add_documents] calls with
  [len(texts) == len(sources)] leaves the sizes equal, whether the
  calls return or raise; a call with texts on an index of the
  provider's dimension returns, and puts the vector of [texts[i]] and
  the record of [texts[i]] and [sources[i]] at the same position, after
  what was there; a call with no text raises and adds nothing; and
  [reset] empties both. *)
Theorem lockstep_invariant (self : Retriever)
  (calls : list (list pystr * list pystr)) :
lockstep self ->
Forall (fun c => List.length (fst c) = List.length (snd c)) calls ->
lockstep (fold_left after_add calls self) /\
(forall ix texts sources,
   index self = Some ix -> ix_d ix = dimension ->
   texts <> [] ->
   List.length texts = List.length sources ->
   exists self' ix',
     add_documents self texts sources = Ok self' /\
     index self' = Some ix' /\
     ntotal ix' = (ntotal ix + List.length texts)%nat /\
     List.length (metadatas self') = ntotal ix' /\
     forall i t s,
       nth_error texts i = Some t -> nth_error sources i = Some s ->
       nth_error (ix_xb ix') (ntotal ix + i) = Some (stored_vector t) /\
       nth_error (metadatas self') (ntotal ix + i)
       = Some {| meta_text := Some t; meta_source := Some s |}) /\
(forall sources, add_documents self [] sources = Raise AssertionError) /\
(forall w remove_files,
   faiss w = true ->
   exists self' w',
     reset w self remove_files = Ok (self', w') /\
     index self' = Some (new_IndexFlatL2 (dim self)) /\
     metadatas self' = [] /\
     lockstep self').
Proof.
intros Hlock Hcalls.
split; [now apply fold_after_add_lockstep|].
split.
- intros ix texts sources Hix Hd Hne Hlen.
  destruct Hlock as (ix0 & Hix0 & Hsize).
  assert (ix0 = ix) by congruence; subst ix0.
  rewrite (add_documents_ok self ix texts sources Hne Hix Hd).
  do 2 eexists; split; [reflexivity|]; simpl.
  split; [reflexivity|].
  unfold ntotal in *; simpl.
  split; [now rewrite length_app, length_map|].
  split.
  { rewrite !length_app, !length_map, length_combine, Hsize; lia. }
  intros i t s Ht Hs; split.
  + rewrite nth_error_app_offset.
    now apply map_nth_error.
  + rewrite Hsize, nth_error_app_offset.
    change {| meta_text := Some t; meta_source := Some s |}
      with (record_of (t, s)).
    apply map_nth_error.
    now apply nth_error_combine.
- split.
  { intros sources; destruct Hlock as (ix & Hix & _).
    now apply (add_documents_empty self ix). }
  intros w remove_files Hf.
  rewrite (reset_ok w self remove_files Hf).
  do 2 eexists; split; [reflexivity|]; simpl.
  split; [reflexivity|].
  split; [reflexivity|].
  eexists; split; reflexivity.
Qed.

(** C4: [add_documents] never compares the lengths of its arguments.
  On an index of the provider's dimension in lockstep with the
  metadata, a call with [len(texts) > len(sources)] returns without an
  error, having added [len(texts)] vectors and only [len(sources)]
  records: the index is then strictly larger than the metadata. *)
Theorem add_documents_unchecked_lengths (self : Retriever) (ix : IndexFlatL2)
  (texts sources : list pystr) :
index self = Some ix -> ix_d ix = dimension ->
ntotal ix = List.length (metadatas self) ->
(List.length sources < List.length texts)%nat ->
exists self' ix',
  add_documents self texts sources = Ok self' /\
  index self' = Some ix' /\
  ntotal ix' = (ntotal ix + List.length texts)%nat /\
  List.length (metadatas self')
  = (List.length (metadatas self) + List.length sources)%nat /\
  (List.length (metadatas self') < ntotal ix')%nat /\
  ~ lockstep self'.
Proof.
intros Hix Hd Hsize Hlen.
assert (Hne : texts <> []) by (intros ->; simpl in Hlen; lia).
rewrite (add_documents_ok self ix texts sources Hne Hix Hd).
do 2 eexists; split; [reflexivity|]; simpl.
split; [reflexivity|].
unfold ntotal in *; simpl.
assert (Hms : List.length (metadatas self ++ map record_of (combine texts sources))
              = (List.length (metadatas self) + List.length sources)%nat)
  by (rewrite length_app, length_map, length_combine; lia).
assert (Hxb : List.length (ix_xb ix ++ map stored_vector texts)
              = (List.length (ix_xb ix) + List.length texts)%nat)
  by now rewrite length_app, length_map.
split; [exact Hxb|].
split; [exact Hms|].
split; [lia|].
intros (ix' & Hix' & Hsize'); simpl in Hix'.
injection Hix' as <-; unfold ntotal in Hsize'; simpl in Hsize'; lia.
Qed.
End RetrieverProperties.

(** C5 (as the code behaves): [reset] is idempotent.  The state after
    two calls with the same flag is the state after one.  With faiss
    available the call returns with an empty index and empty metadata;
    when [remove_files] is true, a persisted file that can be removed is
    absent afterwards and one that cannot be removed stays, the error
    being swallowed; and a second call returns as well, missing files
    or not, with the same state. *)
Theorem reset_idempotent (self : Retriever) (w : world) (remove_files : bool) :
  after_reset remove_files (after_reset remove_files (self, w))
  = after_reset remove_files (self, w) /\
  (faiss w = true ->
   exists self' w',
     reset w self remove_files = Ok (self', w') /\
     (exists ix, index self' = Some ix /\ ntotal ix = 0%nat) /\
     metadatas self' = [] /\
     (remove_files = true ->
      (index_locked w = false -> index_file w' = Absent) /\
      (meta_locked w = false -> meta_file w' = Absent) /\
      (index_locked w = true -> index_file w' = index_file w) /\
      (meta_locked w = true -> meta_file w' = meta_file w)) /\
     reset w' self' remove_files = Ok (self', w')).
Proof.
  destruct (faiss w) eqn:Hf.
  - assert (Hf' : faiss (if remove_files then remove_persisted w else w) = true)
      by (destruct remove_files; [rewrite remove_persisted_faiss|]; exact Hf).
    split.
    + unfold after_reset; simpl.
      rewrite (reset_ok w self remove_files Hf); simpl.
      rewrite (reset_ok _ _ remove_files Hf'); simpl.
      destruct remove_files; [now rewrite remove_persisted_twice | reflexivity].
    + intros _; do 2 eexists.
      split; [apply (reset_ok w self remove_files Hf)|].
      split; [eexists; split; reflexivity|].
      split; [reflexivity|].
      split.
      { intros ->; unfold remove_persisted; simpl.
        repeat split; intros ->; now rewrite try_remove_cases. }
      rewrite (reset_ok _ _ remove_files Hf'); simpl.
      destruct remove_files; [now rewrite remove_persisted_twice | reflexivity].
  - split; [|discriminate].
    unfold after_reset; simpl.
    rewrite (reset_raise w self remove_files Hf); simpl.
    now rewrite (reset_raise w self remove_files Hf).
Qed.

Section SearchProperties.
Context {EP : EmbeddingProvider} {FS : FaissSearch}.

(** [search] once the index has answered. *)
Lemma search_lookup (self : Retriever) (query : pystr) (top_k : Z)
  (ix : IndexFlatL2) (D : list vector) (I_ : list (list Z))
  (D0 : vector) (I0 : list Z) :
index self = Some ix ->
index_search ix (query_array query) top_k = Ok (D, I_) ->
py_getitem D 0 = Ok D0 -> py_getitem I_ 0 = Ok I0 ->
search self query top_k = Ok (lookup_hits (metadatas self) (combine D0 I0)).
Proof.
intros Hix Hsearch HD HI; unfold search; cbv zeta.
rewrite Hix, Hsearch, HD, HI.
apply collect_hits_lookup.
Qed.

(** C6: [search] does not fail on stale or missing metadata.  Once the
  index has answered with its rows [D[0]] and [I[0]], [search] returns:
  its results are those of the pairs whose position is a valid index
  into the metadata, in order, each with the text and source stored at
  its position, and the other pairs are skipped.  When [search] raises,
  the index is missing, or the call to the index raised, or its answer
  has no row.  On a service constructed with no files, every answer of
  the index gives the empty list. *)
Theorem search_skips_invalid_positions (self : Retriever) (query : pystr)
  (top_k : Z) :
(forall ix D I_ D0 I0,
   index self = Some ix ->
   index_search ix (query_array query) top_k = Ok (D, I_) ->
   py_getitem D 0 = Ok D0 -> py_getitem I_ 0 = Ok I0 ->
   search self query top_k
   = Ok (lookup_hits (metadatas self) (combine D0 I0)) /\
   (forall h,
      In h (lookup_hits (metadatas self) (combine D0 I0)) <->
      exists score idx m,
        In (score, idx) (combine D0 I0) /\
        0 <= idx < Z.of_nat (List.length (metadatas self)) /\
        nth_error (metadatas self) (Z.to_nat idx) = Some m /\
        h = {| hit_score := score; hit_text := meta_text m;
               hit_source := meta_source m |})) /\
(forall e,
   search self query top_k = Raise e ->
   index self = None \/
   exists ix,
     index self = Some ix /\
     (index_search ix (query_array query) top_k = Raise e \/
      exists D I_,
        index_search ix (query_array query) top_k = Ok (D, I_) /\
        (py_getitem D 0 = Raise e \/ py_getitem I_ 0 = Raise e))) /\
(forall w ix D I_ D0 I0,
   index_file w = Absent -> meta_file w = Absent ->
   __init__ w = Ok self ->
   index self = Some ix ->
   index_search ix (query_array query) top_k = Ok (D, I_) ->
   py_getitem D 0 = Ok D0 -> py_getitem I_ 0 = Ok I0 ->
   search self query top_k = Ok []).
Proof.
split; [|split].
- intros ix D I_ D0 I0 Hix Hsearch HD HI.
  split; [now apply (search_lookup self query top_k ix D I_)|].
  intros h; apply lookup_hits_in.
- intros e Hraise; unfold search in Hraise; cbv zeta in Hraise.
  destruct (index self) as [ix|]; [right; exists ix; split; [reflexivity|] | now left].
  destruct (index_search ix (query_array query) top_k) as [[D I_]|e'] eqn:Hsearch.
  + right; exists D, I_; split; [reflexivity|].
    destruct (py_getitem D 0) as [D0|e1]; [|left; congruence].
    destruct (py_getitem I_ 0) as [I0|e2]; [|right; congruence].
    rewrite collect_hits_lookup in Hraise; discriminate.
  + left; congruence.
- intros w ix D I_ D0 I0 Hif Hmf Hinit Hix Hsearch HD HI.
  rewrite (search_lookup self query top_k ix D I_ D0 I0) by assumption.
  rewrite init_cases, Hmf in Hinit.
  destruct (faiss w); [|discriminate].
  injection Hinit as <-; simpl.
  now rewrite lookup_hits_nil.
Qed.
End SearchProperties.

(* ================================================================= *)
(** * The properties at sample inputs *)

Lemma construction_fail_open_witness :
  faiss empty_world = true /\
  exists r,
    @__init__ toy_provider empty_world = Ok r /\
    index r = Some (new_IndexFlatL2 3).
Proof.
  split; [reflexivity|].
  destruct (proj2 (@construction_fail_open toy_provider empty_world) eq_refl)
    as (r & Hinit & Habsent & _).
  exists r; split; [exact Hinit|].
  apply Habsent; left; reflexivity.
Defined.

(** C1 as stated fails: the index file holds an index of dimension 5,
    the provider declares dimension 3, and construction keeps the index
    of the file, with its vector, instead of a fresh empty index. *)
Lemma stale_dimension_kept :
  index_file stale_world = Readable stale_index /\
  ix_d stale_index <> @dimension toy_provider /\
  @__init__ toy_provider stale_world
  = Ok {| dim := 3; index := Some stale_index; metadatas := [] |} /\
  Some stale_index <> Some (new_IndexFlatL2 (@dimension toy_provider)).
Proof.
  split; [reflexivity|].
  split; [discriminate|].
  split; [reflexivity | discriminate].
Qed.

Lemma lockstep_invariant_witness :
  lockstep fresh_retriever /\
  Forall (fun c => List.length (fst c) = List.length (snd c)) sample_calls /\
  lockstep (fold_left (@after_add toy_provider) sample_calls fresh_retriever).
Proof.
  assert (Hlock : lockstep fresh_retriever)
    by (eexists; split; reflexivity).
  assert (Hcalls : Forall (fun c => List.length (fst c) = List.length (snd c))
                     sample_calls)
    by (repeat constructor).
  split; [exact Hlock|]; split; [exact Hcalls|].
  exact (proj1 (@lockstep_invariant toy_provider fresh_retriever sample_calls
                  Hlock Hcalls)).
Defined.

Lemma add_documents_unchecked_lengths_witness :
  exists self' ix',
    @add_documents toy_provider fresh_retriever
      [str "a"; str "bc"] [str "doc.txt"] = Ok self' /\
    index self' = Some ix' /\
    (List.length (metadatas self') < ntotal ix')%nat.
Proof.
  destruct (@add_documents_unchecked_lengths toy_provider fresh_retriever
              (new_IndexFlatL2 3) [str "a"; str "bc"] [str "doc.txt"]
              eq_refl eq_refl eq_refl (le_n 2))
    as (self' & ix' & Hadd & Hix & _ & _ & Hlt & _).
  exists self', ix'; repeat split; assumption.
Defined.

Lemma reset_idempotent_witness :
  faiss stale_world = true /\
  exists self' w',
    reset stale_world fresh_retriever true = Ok (self', w') /\
    reset w' self' true = Ok (self', w').
Proof.
  split; [reflexivity|].
  destruct (proj2 (reset_idempotent fresh_retriever stale_world true) eq_refl)
    as (self' & w' & Hfirst & _ & _ & _ & Hsecond).
  exists self', w'; split; assumption.
Defined.

(** C5 as stated fails: the index file exists and cannot be removed;
    [reset] with [remove_files] true returns, twice, and the file is
    still there. *)
Lemma locked_index_file_stays :
  faiss locked_world = true /\
  exists self' w',
    reset locked_world fresh_retriever true = Ok (self', w') /\
    reset w' self' true = Ok (self', w') /\
    index_file w' = Readable stale_index /\
    index_file w' <> Absent.
Proof.
  split; [reflexivity|].
  exists fresh_retriever, locked_world.
  split; [reflexivity|]; split; [reflexivity|].
  split; [reflexivity | discriminate].
Qed.

Lemma search_skips_invalid_positions_witness :
  @__init__ toy_provider empty_world = Ok fresh_retriever /\
  @search toy_provider toy_search fresh_retriever (str "q") 3 = Ok [].
Proof.
  split; [reflexivity|].
  apply (proj2 (proj2 (@search_skips_invalid_positions toy_provider toy_search
                         fresh_retriever (str "q") 3))
           empty_world (new_IndexFlatL2 3)
           [[S754_zero false; S754_zero false; S754_zero false]]
           [[-1; -1; -1]]
           [S754_zero false; S754_zero false; S754_zero false]
           [-1; -1; -1]);
    reflexivity.
Defined.

(* ================================================================= *)
(** * More on the chunker *)

Lemma firstn_add_skipn {A : Type} (a b : nat) : forall l : list A,
  firstn (a + b) l = firstn a l ++ firstn b (skipn a l).
Proof.
  induction a as [|a IH]; intros [|x l]; simpl;
    try reflexivity; [now rewrite firstn_nil | now rewrite IH].
Qed.

(** The pieces of [s] elements taken at every [s]-th position, put
    together, are a prefix of the list. *)
Lemma concat_strides {A : Type} (s : nat) (l : list A) : forall n,
  List.concat (map (fun i => firstn s (skipn (i * s) l)) (seq 0 n))
  = firstn (n * s) l.
Proof.
  induction n as [|n IH]; [reflexivity|].
  rewrite seq_S, map_app, concat_app, IH; simpl.
  rewrite app_nil_r.
  replace (s + n * s)%nat with (n * s + s)%nat by lia.
  now rewrite firstn_add_skipn.
Qed.

(** With [0 < chunk_size] too a window is [firstn] of [skipn]. *)
Lemma window_firstn_skipn_pos (text : pystr) (chunk_size overlap : Z) (i : nat) :
  0 < chunk_size -> overlap < chunk_size ->
  window text chunk_size overlap i
  = firstn (Z.to_nat chunk_size)
      (skipn (i * Z.to_nat (chunk_size - overlap)) text).
Proof.
  intros Hcs Hstep; unfold window.
  rewrite pyslice_nonneg by nia.
  f_equal; [f_equal; lia|].
  f_equal; rewrite Z2Nat.inj_mul, Nat2Z.id by lia; reflexivity.
Qed.

(** [chunk_text] under [overlap < chunk_size], on every text. *)
Lemma chunk_text_closed_form (text : pystr) (chunk_size overlap : Z) :
  overlap < chunk_size ->
  chunk_text text chunk_size overlap
  = Some (map (window text chunk_size overlap)
            (seq 0 (window_count text chunk_size overlap))).
Proof.
  intros Hstep; destruct text as [|c text'] eqn:Etext.
  - unfold window_count; simpl.
    rewrite Z.div_small by lia; reflexivity.
  - apply chunk_text_windows_eq; [assumption | discriminate].
Qed.

(** The first [chunk_size - overlap] characters of every window, put
    together in order, are the text. *)
Lemma windows_cover (text : pystr) (chunk_size overlap : Z) :
  0 <= overlap -> overlap < chunk_size ->
  List.concat
    (map (firstn (Z.to_nat (chunk_size - overlap)))
       (map (window text chunk_size overlap)
          (seq 0 (window_count text chunk_size overlap))))
  = text.
Proof.
  intros Hov Hstep.
  set (n := window_count text chunk_size overlap).
  set (s := Z.to_nat (chunk_size - overlap)).
  rewrite map_map.
  rewrite (map_ext _ (fun i => firstn s (skipn (i * s) text))).
  - rewrite concat_strides.
    apply firstn_all2.
    destruct (Nat.le_gt_cases (List.length text) (n * s)) as [|Hgt]; [assumption|].
    exfalso.
    assert (Hin : Z.of_nat n * (chunk_size - overlap) < Z.of_nat (List.length text))
      by (unfold s in Hgt; nia).
    apply (window_count_spec text chunk_size overlap Hstep) in Hin.
    unfold n in Hin; lia.
  - intros i.
    rewrite window_firstn_skipn_pos by lia.
    rewrite firstn_firstn; f_equal; unfold s; lia.
Qed.

(** A window that starts inside the text is a substring of it that is
    not empty and has at most [chunk_size] characters. *)
Lemma window_bounded (text : pystr) (chunk_size overlap : Z) (i : nat) :
  0 < chunk_size -> overlap < chunk_size ->
  (i < window_count text chunk_size overlap)%nat ->
  window text chunk_size overlap i <> [] /\
  Z.of_nat (List.length (window text chunk_size overlap i)) <= chunk_size /\
  exists before after,
    text = before ++ window text chunk_size overlap i ++ after.
Proof.
  intros Hcs Hstep Hi.
  apply (window_count_spec text chunk_size overlap Hstep) in Hi.
  rewrite window_firstn_skipn_pos by assumption.
  set (a := (i * Z.to_nat (chunk_size - overlap))%nat).
  assert (Ha : (a < List.length text)%nat) by (unfold a; nia).
  split; [|split].
  - intros Hnil; apply (f_equal (@List.length _)) in Hnil.
    rewrite length_firstn, length_skipn in Hnil; simpl in Hnil; lia.
  - rewrite length_firstn; lia.
  - exists (firstn a text),
           (skipn (Z.to_nat chunk_size) (skipn a text)).
    now rewrite firstn_skipn, firstn_skipn.
Qed.

Lemma windows_bounded (text : pystr) (chunk_size overlap : Z) :
  0 < chunk_size -> overlap < chunk_size ->
  Forall (fun c =>
            c <> [] /\
            Z.of_nat (List.length c) <= chunk_size /\
            exists before after, text = before ++ c ++ after)
    (map (window text chunk_size overlap)
       (seq 0 (window_count text chunk_size overlap))).
Proof.
  intros Hcs Hstep.
  apply Forall_forall; intros c Hc.
  apply in_map_iff in Hc as (i & <- & Hi).
  apply in_seq in Hi as [_ Hi]; simpl in Hi.
  now apply window_bounded.
Qed.

(** A text of at most [chunk_size - overlap] characters has one
    window, the text. *)
Lemma single_window (text : pystr) (chunk_size overlap : Z) :
  text <> [] -> 0 <= overlap ->
  Z.of_nat (List.length text) <= chunk_size - overlap ->
  map (window text chunk_size overlap)
    (seq 0 (window_count text chunk_size overlap)) = [text].
Proof.
  intros Hne Hov Hlen.
  assert (Hpos : 0 < Z.of_nat (List.length text))
    by (destruct text; [contradiction | simpl; lia]).
  assert (Hstep : overlap < chunk_size) by lia.
  pose proof (window_count_spec text chunk_size overlap Hstep) as Hspec.
  assert (Hcount : window_count text chunk_size overlap = 1%nat).
  { pose proof (proj1 (Hspec 0%nat)) as H0.
    pose proof (proj2 (Hspec 1%nat)) as H1.
    destruct (Nat.lt_ge_cases 1 (window_count text chunk_size overlap)); lia. }
  rewrite Hcount; simpl.
  rewrite window_firstn_skipn_pos by lia; simpl.
  rewrite firstn_all2 by lia; reflexivity.
Qed.

(** X1: [chunk_text] returns exactly when the text is empty or
    [overlap < chunk_size]. *)
Theorem chunk_text_returns_iff (text : pystr) (chunk_size overlap : Z) :
  (exists res, chunk_text_returns text chunk_size overlap res) <->
  text = [] \/ overlap < chunk_size.
Proof.
  split.
  - intros [res Hret].
    destruct text as [|c text']; [now left | right].
    destruct (Z.lt_ge_cases overlap chunk_size) as [Hlt|Hge]; [assumption|].
    exfalso.
    eapply (proj2 (chunk_text_diverges (c :: text') chunk_size overlap
                     ltac:(discriminate) Hge)); eassumption.
  - intros [-> | Hstep].
    + exists []; now apply returns_empty.
    + eexists; eapply chunk_text_fuel_returns.
      apply (chunk_text_closed_form text chunk_size overlap Hstep).
Qed.

(** X2: with [0 <= overlap < chunk_size] no character is lost: the
    first [chunk_size - overlap] characters of every chunk, put
    together in order, are the text. *)
Theorem chunks_cover_text (text : pystr) (chunk_size overlap : Z) :
  0 <= overlap -> overlap < chunk_size ->
  exists cks,
    chunk_text text chunk_size overlap = Some cks /\
    List.concat (map (firstn (Z.to_nat (chunk_size - overlap))) cks) = text.
Proof.
  intros Hov Hstep.
  eexists; split; [now apply chunk_text_closed_form|].
  now apply windows_cover.
Qed.

Lemma chunks_cover_text_witness :
  0 <= 1 /\ 1 < 4 /\
  exists cks,
    chunk_text sample_text 4 1 = Some cks /\
    List.concat (map (firstn (Z.to_nat (4 - 1))) cks) = sample_text.
Proof.
  assert (H0 : 0 <= 1) by discriminate.
  assert (H1 : 1 < 4) by reflexivity.
  split; [exact H0|]; split; [exact H1|].
  exact (chunks_cover_text sample_text 4 1 H0 H1).
Defined.

(** X3: with [0 < chunk_size] and [overlap < chunk_size] every chunk is
    a substring of the text that is not empty and has at most
    [chunk_size] characters. *)
Theorem chunks_are_bounded_substrings (text : pystr) (chunk_size overlap : Z)
    (cks : list pystr) :
  0 < chunk_size -> overlap < chunk_size ->
  chunk_text text chunk_size overlap = Some cks ->
  Forall (fun c =>
            c <> [] /\
            Z.of_nat (List.length c) <= chunk_size /\
            exists before after, text = before ++ c ++ after) cks.
Proof.
  intros Hcs Hstep Hrun.
  rewrite chunk_text_closed_form in Hrun by assumption.
  injection Hrun as <-.
  now apply windows_bounded.
Qed.

Lemma chunks_are_bounded_substrings_witness :
  0 < 4 /\ 1 < 4 /\
  chunk_text sample_text 4 1 = Some sample_chunks /\
  Forall (fun c =>
            c <> [] /\
            Z.of_nat (List.length c) <= 4 /\
            exists before after, sample_text = before ++ c ++ after)
    sample_chunks.
Proof.
  assert (H0 : 0 < 4) by reflexivity.
  assert (H1 : 1 < 4) by reflexivity.
  assert (Hrun : chunk_text sample_text 4 1 = Some sample_chunks) by reflexivity.
  split; [exact H0|]; split; [exact H1|]; split; [exact Hrun|].
  exact (chunks_are_bounded_substrings sample_text 4 1 sample_chunks H0 H1 Hrun).
Defined.

(** X4: with [0 <= overlap], a text that is not empty and has at most
    [chunk_size - overlap] characters gives one chunk, the text. *)
Theorem short_text_single_chunk (text : pystr) (chunk_size overlap : Z) :
  text <> [] -> 0 <= overlap ->
  Z.of_nat (List.length text) <= chunk_size - overlap ->
  chunk_text text chunk_size overlap = Some [text].
Proof.
  intros Hne Hov Hlen.
  assert (Hpos : 0 < Z.of_nat (List.length text))
    by (destruct text; [contradiction | simpl; lia]).
  rewrite chunk_text_closed_form by lia.
  now rewrite single_window.
Qed.

Lemma short_text_single_chunk_witness :
  str "abc" <> [] /\ 0 <= 1 /\
  Z.of_nat (List.length (str "abc")) <= 4 - 1 /\
  chunk_text (str "abc") 4 1 = Some [str "abc"].
Proof.
  assert (H0 : str "abc" <> []) by discriminate.
  assert (H1 : 0 <= 1) by discriminate.
  assert (H2 : Z.of_nat (List.length (str "abc")) <= 4 - 1) by discriminate.
  split; [exact H0|]; split; [exact H1|]; split; [exact H2|].
  exact (short_text_single_chunk (str "abc") 4 1 H0 H1 H2).
Defined.

(** [chunk_text] at its default sizes: it returns, and what it returns
    covers the content in chunks of one to 800 characters. *)
Lemma default_chunks (content : pystr) :
  exists cks,
    chunk_text content 800 100 = Some cks /\
    List.concat (map (firstn 700) cks) = content /\
    Forall (fun c => c <> [] /\ (List.length c <= 800)%nat) cks /\
    (content = [] -> cks = []) /\
    (content <> [] -> (List.length content <= 700)%nat -> cks = [content]).
Proof.
  eexists; split; [apply chunk_text_closed_form; lia|].
  split; [apply (windows_cover content 800 100); lia|].
  split; [|split].
  - eapply Forall_impl; [|apply (windows_bounded content 800 100); lia].
    intros c (Hne & Hlen & _); split; [assumption | lia].
  - intros ->; reflexivity.
  - intros Hne Hlen; apply single_window; [assumption | lia | lia].
Qed.

(* ================================================================= *)
(** * Properties of parsing *)

Section ParsingProperties.
Context {U : Unicode} {E : Extractors}.

(** X5: [parse_and_chunk_file] always returns or raises, and raises
    only what the parser raises.  When the parser gives no content or an
    empty one the result is the empty list; otherwise the chunks are not
    empty, have at most 800 characters, and their first 700 characters
    put together are the content; a content of at most 700 characters
    is the only chunk. *)
Theorem parse_and_chunk_file_returns (fs : store) (path : pystr) :
  match parse_file fs path with
  | Raise e => parse_and_chunk_file fs path = Some (Raise e)
  | Ok None => parse_and_chunk_file fs path = Some (Ok [])
  | Ok (Some content) =>
      exists cks,
        parse_and_chunk_file fs path = Some (Ok cks) /\
        List.concat (map (firstn 700) cks) = content /\
        Forall (fun c => c <> [] /\ (List.length c <= 800)%nat) cks /\
        (content = [] -> cks = []) /\
        (content <> [] -> (List.length content <= 700)%nat -> cks = [content])
  end.
Proof.
  unfold parse_and_chunk_file.
  destruct (parse_file fs path) as [[content|]|e]; try reflexivity.
  destruct (default_chunks content) as (cks & Hrun & Hrest).
  rewrite Hrun; exists cks; split; [reflexivity | exact Hrest].
Qed.

(** X6: a file that exists and whose suffix, in lower case, is none of
    .pdf, .docx, .doc, .xlsx, .xls and .csv is read as text, and
    [parse_and_chunk_file] returns the chunks of its decoding; it does
    not raise. *)
Theorem unknown_suffix_read_as_text (fs : store) (path : pystr) (b : bytes) :
  fs path = Some b ->
  in_tuple (lower (suffix path))
    [str ".pdf"; str ".docx"; str ".doc"; str ".xlsx"; str ".xls"; str ".csv"]
  = false ->
  exists cks,
    chunk_text (decode_text b) 800 100 = Some cks /\
    parse_and_chunk_file fs path = Some (Ok cks).
Proof.
  intros Hfile Hext.
  assert (Hparse : parse_file fs path = Ok (Some (decode_text b))).
  { unfold parse_file; cbv zeta.
    unfold in_tuple in *; simpl in *.
    repeat rewrite orb_false_r in *.
    repeat (apply orb_false_iff in Hext as [? Hext]).
    repeat match goal with H : _ = false |- _ => rewrite H; clear H end.
    simpl.
    unfold parse_txt, open_; rewrite Hfile.
    destruct (str_eqb _ _); reflexivity. }
  destruct (default_chunks (decode_text b)) as (cks & Hrun & _).
  exists cks; split; [exact Hrun|].
  unfold parse_and_chunk_file; now rewrite Hparse, Hrun.
Qed.
End ParsingProperties.

Lemma unknown_suffix_read_as_text_witness :
  sample_store (str "uploads/notes.md") = Some (str "hello") /\
  @parse_and_chunk_file ascii_lower toy_extractors sample_store
    (str "uploads/notes.md") = Some (Ok [str "hello"]).
Proof.
  split; [reflexivity|].
  destruct (@unknown_suffix_read_as_text ascii_lower toy_extractors sample_store
              (str "uploads/notes.md") (str "hello") eq_refl eq_refl)
    as (cks & Hrun & Hparse).
  rewrite Hparse; clear Hparse.
  vm_compute in Hrun; injection Hrun as <-; reflexivity.
Defined.

(* ================================================================= *)
(** * More on the answer strategies *)

Section DropWhile.
Context {A : Type} (p : A -> bool).

Lemma drop_while_clean (s : list A) : clean_head p (drop_while p s) = true.
Proof.
  induction s as [|c s IH]; simpl; [reflexivity|].
  destruct (p c) eqn:E; [assumption | simpl; now rewrite E].
Qed.

Lemma clean_drop_while (s : list A) :
  clean_head p s = true -> drop_while p s = s.
Proof.
  destruct s as [|c s]; simpl; [reflexivity|].
  destruct (p c); [discriminate | reflexivity].
Qed.

Lemma drop_while_suffix (s : list A) :
  exists before, s = before ++ drop_while p s.
Proof.
  induction s as [|c s [before IH]]; simpl; [now exists []|].
  destruct (p c); [|now exists []].
  exists (c :: before); simpl; now rewrite <- IH.
Qed.

Lemma clean_prefix (u w : list A) :
  clean_head p (u ++ w) = true -> clean_head p u = true.
Proof. destruct u; [reflexivity | exact (fun H => H)]. Qed.
End DropWhile.

(** Stripping a stripped string changes nothing. *)
Lemma strip_idempotent (s : pystr) : strip (strip s) = strip s.
Proof.
  unfold strip.
  set (t := drop_while isspace s).
  set (d := drop_while isspace (rev t)).
  assert (Hd : clean_head isspace d = true) by apply drop_while_clean.
  assert (Hu : clean_head isspace (rev d) = true).
  { destruct (drop_while_suffix isspace (rev t)) as [before Hsplit].
    fold d in Hsplit.
    apply (clean_prefix isspace (rev d) (rev before)).
    rewrite <- rev_app_distr, <- Hsplit, rev_involutive.
    apply drop_while_clean. }
  rewrite (clean_drop_while isspace (rev d) Hu), rev_involutive.
  now rewrite (clean_drop_while isspace d Hd).
Qed.

Lemma sentinel_not_empty : sentinel <> [].
Proof. discriminate. Qed.

Lemma not_relevant_not_empty : not_relevant <> [].
Proof. discriminate. Qed.

Lemma not_false (s : pystr) : not_ s = false -> s <> [].
Proof. destruct s; [discriminate | intros _; discriminate]. Qed.

(** What a write to the log that returns has done. *)
Lemma log_qa_interaction_inv {L : LogFile} (now question answer : pystr)
    (score : option spec_float) (log log' : list log_entry) :
  log_qa_interaction now question answer score log = Ok log' ->
  log' = log ++ [{| log_timestamp := now; log_question := question;
                    log_answer := answer; log_confidence := score |}].
Proof.
  unfold log_qa_interaction.
  destruct (negb log_writable); [discriminate|].
  destruct (encodable question && encodable answer); [|discriminate].
  now intros [= <-].
Qed.

(** X7: a span that is not empty once stripped, with a score that is
    not below [0.1] (equal to it, above it, or not a number), is the
    answer [answer_with_roberta] computes and logs, stripped: the call
    returns it when the write to the log succeeds, as it does when the
    log can be opened and the question and the span can be encoded, and
    raises what the write raised otherwise. *)
Theorem extractive_passes_span {L : LogFile}
    (roberta_model : pystr -> pystr -> result qa_result)
    (now question : pystr) (contexts : list pystr) (log : list log_entry)
    (r : qa_result) :
  roberta_model question (join [10%N] contexts) = Ok r ->
  strip (dict_get (qa_answer r) []) <> [] ->
  SFltb (dict_get (qa_score r) zero_score) threshold = false ->
  answer_with_roberta roberta_model now question contexts log
  = match log_qa_interaction now question
            (strip (dict_get (qa_answer r) []))
            (Some (dict_get (qa_score r) zero_score)) log with
    | Ok log' => Ok (strip (dict_get (qa_answer r) []), log')
    | Raise e => Raise e
    end /\
  (log_writable = true -> encodable question = true ->
   encodable (strip (dict_get (qa_answer r) [])) = true ->
   answer_with_roberta roberta_model now question contexts log
   = Ok (strip (dict_get (qa_answer r) []),
         log ++ [{| log_timestamp := now; log_question := question;
                    log_answer := strip (dict_get (qa_answer r) []);
                    log_confidence :=
                      Some (dict_get (qa_score r) zero_score) |}])).
Proof.
  intros Hmodel Hspan Hscore; unfold answer_with_roberta; rewrite Hmodel.
  rewrite Hscore, orb_false_r.
  destruct (strip (dict_get (qa_answer r) [])) as [|c span] eqn:Estrip;
    [contradiction|]; cbn [not_].
  split.
  - destruct (log_qa_interaction now question (c :: span) _ log); reflexivity.
  - intros Hopen Hquestion Hanswer; unfold log_qa_interaction.
    rewrite Hopen, Hquestion, Hanswer; reflexivity.
Qed.

Lemma extractive_passes_span_witness :
  nan_model (str "Where?") (join [10%N] [str "In Paris."])
  = Ok {| qa_answer := Some (str " Paris "); qa_score := Some S754_nan |} /\
  @answer_with_roberta open_log nan_model (str "now") (str "Where?")
    [str "In Paris."] []
  = Ok (str "Paris",
        [{| log_timestamp := str "now"; log_question := str "Where?";
            log_answer := str "Paris"; log_confidence := Some S754_nan |}]).
Proof.
  split; [reflexivity|].
  apply (proj2 (@extractive_passes_span open_log nan_model (str "now")
                  (str "Where?") [str "In Paris."] []
                  {| qa_answer := Some (str " Paris ");
                     qa_score := Some S754_nan |}
                  eq_refl ltac:(discriminate) eq_refl));
    reflexivity.
Defined.

(** X8: whatever the model returns, the answer of [answer_with_roberta]
    is not empty, and the call adds one entry to the end of the log,
    with this answer and with a score. *)
Theorem extractive_answer_logged {L : LogFile}
    (roberta_model : pystr -> pystr -> result qa_result)
    (now question : pystr) (contexts : list pystr) (log log' : list log_entry)
    (answer : pystr) :
  answer_with_roberta roberta_model now question contexts log
  = Ok (answer, log') ->
  answer <> [] /\
  exists score,
    log' = log ++ [{| log_timestamp := now; log_question := question;
                      log_answer := answer; log_confidence := Some score |}].
Proof.
  unfold answer_with_roberta.
  destruct (roberta_model question (join [10%N] contexts)) as [r|e];
    [|discriminate].
  destruct (log_qa_interaction now question _ _ log) as [logged|e] eqn:Hlog;
    [|discriminate].
  apply log_qa_interaction_inv in Hlog.
  destruct (not_ (strip (dict_get (qa_answer r) []))
            || SFltb (dict_get (qa_score r) zero_score) threshold) eqn:Hcond;
    intros [= <- <-].
  - split; [exact sentinel_not_empty | eexists; exact Hlog].
  - apply orb_false_iff in Hcond as [Hspan _].
    split; [now apply not_false | eexists; exact Hlog].
Qed.

Lemma extractive_answer_logged_witness :
  @answer_with_roberta open_log nan_model (str "now") (str "Where?")
    [str "In Paris."] []
  = Ok (str "Paris",
        [{| log_timestamp := str "now"; log_question := str "Where?";
            log_answer := str "Paris"; log_confidence := Some S754_nan |}]) /\
  str "Paris" <> [].
Proof.
  split; [reflexivity|].
  exact (proj1 (@extractive_answer_logged open_log nan_model (str "now")
                  (str "Where?") [str "In Paris."] [] _ (str "Paris") eq_refl)).
Defined.

Section GenerativeProperties.
Context {L : LogFile} {U : Unicode}.

(** X9: the answer of [answer_with_flan_t5] is not empty; it is the
    fixed answer "not relevant to the context", or a stripped text whose
    lower case contains neither "not relevant" nor "i don't know".  The
    call adds one entry to the end of the log, with this answer and
    without a score.  When the model returns an empty list the call
    raises [IndexError]. *)
Theorem generative_answer_normalized
    (flan_model : pystr -> result (list generation))
    (now question : pystr) (contexts : list pystr) (log : list log_entry) :
  (forall answer log',
     answer_with_flan_t5 flan_model now question contexts log
     = Ok (answer, log') ->
     answer <> [] /\
     (answer = not_relevant \/
      strip answer = answer /\
      contains (str "not relevant") (lower answer) = false /\
      contains (str "i don't know") (lower answer) = false) /\
     log' = log ++ [{| log_timestamp := now; log_question := question;
                       log_answer := answer; log_confidence := None |}]) /\
  (flan_model (prompt_of (join [10%N; 10%N] contexts) question) = Ok [] ->
   answer_with_flan_t5 flan_model now question contexts log = Raise IndexError).
Proof.
  unfold answer_with_flan_t5; cbv zeta.
  destruct (flan_model (prompt_of (join [10%N; 10%N] contexts) question))
    as [results|e]; [|split; [intros ? ? [=] | intros [=]]].
  split; [|intros [= ->]; reflexivity].
  intros answer log'.
  destruct (py_getitem results 0) as [result|e]; [|discriminate].
  set (a := strip (dict_get (generated_text result) [])).
  destruct (log_qa_interaction now question _ None log) as [logged|e] eqn:Hlog;
    [|discriminate].
  apply log_qa_interaction_inv in Hlog.
  destruct (not_ a || contains (str "not relevant") (lower a)
            || contains (str "i don't know") (lower a)) eqn:Hcond;
    intros [= <- <-].
  - split; [exact not_relevant_not_empty|].
    split; [now left | exact Hlog].
  - apply orb_false_iff in Hcond as [Hcond Hdont].
    apply orb_false_iff in Hcond as [Hspan Hrel].
    split; [now apply not_false|].
    split; [right | exact Hlog].
    split; [|split; assumption].
    apply strip_idempotent.
Qed.
End GenerativeProperties.

Lemma generative_answer_normalized_witness :
  @answer_with_flan_t5 open_log ascii_lower unsure_model (str "now")
    (str "Who?") [] []
  = Ok (not_relevant,
        [{| log_timestamp := str "now"; log_question := str "Who?";
            log_answer := not_relevant; log_confidence := None |}]) /\
  not_relevant <> [].
Proof.
  split; [reflexivity|].
  exact (proj1 (proj1 (@generative_answer_normalized open_log ascii_lower
                         unsure_model (str "now") (str "Who?") [] [])
                  not_relevant _ eq_refl)).
Defined.

(* ================================================================= *)
(** * More on the retriever *)

Lemma lookup_hits_length (ms : list meta) (pairs : list (spec_float * Z)) :
  (List.length (lookup_hits ms pairs) <= List.length pairs)%nat.
Proof.
  induction pairs as [|p rest IH]; simpl; [lia|].
  rewrite length_app.
  destruct (valid_position ms (snd p)); simpl; [|lia].
  destruct (nth_error ms (Z.to_nat (snd p))); simpl; lia.
Qed.

(** When no position is past the end of the metadata, the results are
    as many as the positions that are not negative. *)
Lemma lookup_hits_count (ms : list meta) (pairs : list (spec_float * Z)) :
  Forall (fun p => snd p < Z.of_nat (List.length ms)) pairs ->
  List.length (lookup_hits ms pairs)
  = List.length (filter (fun p => 0 <=? snd p) pairs).
Proof.
  induction 1 as [|p rest Hp _ IH]; simpl; [reflexivity|].
  rewrite length_app, IH; unfold valid_position.
  destruct (Z.leb_spec 0 (snd p)); simpl; [|reflexivity].
  destruct (Z.ltb_spec (snd p) (Z.of_nat (List.length ms))); [|lia].
  destruct (nth_error ms (Z.to_nat (snd p))) eqn:E; [reflexivity|].
  apply nth_error_None in E; lia.
Qed.

Lemma lookup_hits_complete (ms : list meta) (pairs : list (spec_float * Z)) :
  Forall (fun m => complete m = true) ms ->
  Forall (fun h => hit_text h <> None /\ hit_source h <> None)
    (lookup_hits ms pairs).
Proof.
  intros Hms; apply Forall_forall; intros h Hh.
  apply lookup_hits_in in Hh as (score & idx & m & _ & _ & Hnth & ->).
  apply nth_error_In in Hnth.
  rewrite Forall_forall in Hms; specialize (Hms m Hnth).
  unfold complete in Hms; simpl.
  destruct (meta_text m), (meta_source m); try discriminate.
  split; discriminate.
Qed.

Section RetrieverOperations.
Context {EP : EmbeddingProvider}.

(** What a call of [add_documents] that returns has done. *)
Lemma add_documents_inv (self self' : Retriever) (texts sources : list pystr) :
  add_documents self texts sources = Ok self' ->
  exists ix,
    index self = Some ix /\ ix_d ix = dimension /\
    self' = {| dim := dim self;
               index := Some {| ix_d := ix_d ix;
                                ix_xb := ix_xb ix ++ map stored_vector texts |};
               metadatas := metadatas self
                            ++ map record_of (combine texts sources) |}.
Proof.
  intros Hadd.
  destruct (index self) as [ix|] eqn:Hix.
  - destruct texts as [|t texts].
    { rewrite (add_documents_empty self ix sources Hix) in Hadd.
      discriminate. }
    destruct (Pos.eq_dec (ix_d ix) dimension) as [Hd|Hd].
    + rewrite (add_documents_ok self ix (t :: texts) sources
                 ltac:(discriminate) Hix Hd) in Hadd.
      injection Hadd as <-; now exists ix.
    + destruct (add_documents_raise self (t :: texts) sources) as [e He];
        [intros ix' Hix'; congruence | congruence].
  - destruct (add_documents_raise self texts sources) as [e He];
      [intros ix' Hix'; congruence | congruence].
Qed.

(** A call of [add_documents] that returns had texts. *)
Lemma add_documents_inv_texts (self self' : Retriever)
    (texts sources : list pystr) :
  add_documents self texts sources = Ok self' -> texts <> [].
Proof.
  intros Hadd ->.
  destruct (add_documents_inv self self' [] sources Hadd) as (ix & Hix & _).
  rewrite (add_documents_empty self ix sources Hix) in Hadd; discriminate.
Qed.

Lemma add_documents_mismatch (self : Retriever) (ix : IndexFlatL2)
    (texts sources : list pystr) :
  index self = Some ix -> ix_d ix <> dimension ->
  add_documents self texts sources = Raise AssertionError.
Proof.
  intros Hix Hd.
  destruct texts as [|t texts]; [now apply (add_documents_empty self ix)|].
  unfold add_documents; cbv zeta.
  rewrite (encode_two_dimensions (t :: texts)) by discriminate.
  rewrite Hix, astype_encode by discriminate; simpl.
  destruct (Nat.eqb_spec (Pos.to_nat dimension) (Pos.to_nat (ix_d ix)))
    as [Heq|Hne]; [|reflexivity].
  exfalso; apply Hd; apply Pos2Nat.inj; congruence.
Qed.

Lemma init_constructed (w : world) (self : Retriever) :
  __init__ w = Ok self -> constructed (self, w).
Proof.
  rewrite init_cases; destruct (faiss w) eqn:Hf; [|discriminate].
  intros [= <-]; repeat split; simpl; [eexists; reflexivity | assumption].
Qed.

Lemma after_operation_constructed (st : Retriever * world) (o : operation) :
  constructed st -> constructed (after_operation st o).
Proof.
  destruct st as [self w]; intros ([ix Hix] & Hdim & Hf); simpl in *.
  destruct o as [texts sources | remove_files | iw mw]; simpl.
  - unfold after_add; simpl.
    destruct (add_documents self texts sources) as [self'|e] eqn:Hadd.
    + apply add_documents_inv in Hadd as (ix0 & _ & _ & ->).
      repeat split; simpl; [eexists; reflexivity | assumption | assumption].
    + repeat split; simpl; [now exists ix | assumption | assumption].
  - unfold after_reset; simpl.
    rewrite (reset_ok w self remove_files Hf).
    repeat split; simpl; [eexists; reflexivity | assumption|].
    destruct remove_files; [rewrite remove_persisted_faiss|]; assumption.
  - repeat split; simpl; [now exists ix | assumption|].
    unfold save; rewrite Hix, Hf; reflexivity.
Qed.

Lemma after_operations_constructed (ops : list operation) :
  forall st, constructed st -> constructed (fold_left after_operation ops st).
Proof.
  induction ops as [|o ops IH]; intros st Hst; simpl; [exact Hst|].
  apply IH; now apply after_operation_constructed.
Qed.

Lemma after_operation_complete (st : Retriever * world) (o : operation) :
  Forall (fun m => complete m = true) (metadatas (fst st)) ->
  Forall (fun m => complete m = true) (metadatas (fst (after_operation st o))).
Proof.
  destruct st as [self w]; intros Hms; simpl in *.
  destruct o as [texts sources | remove_files | iw mw]; simpl.
  - unfold after_add; simpl.
    destruct (add_documents self texts sources) as [self'|e] eqn:Hadd;
      [|assumption].
    apply add_documents_inv in Hadd as (ix0 & _ & _ & ->); simpl.
    apply Forall_app; split; [assumption|].
    apply Forall_forall; intros m Hm.
    apply in_map_iff in Hm as (ts & <- & _); reflexivity.
  - unfold after_reset, reset; simpl.
    destruct (faiss w); simpl; [|assumption].
    destruct remove_files; simpl; constructor.
  - assumption.
Qed.

(** X10: saving and constructing again gives the retriever back.  On a
    retriever with an index and with the provider's dimension, when
    faiss is there and both writes succeed, a service constructed from
    the saved files is the one that was saved: same index, same
    metadata. *)
Theorem save_load_round_trip (w : world) (self : Retriever) (ix : IndexFlatL2) :
  faiss w = true -> index self = Some ix -> dim self = dimension ->
  __init__ (save w self Succeeds Succeeds) = Ok self.
Proof.
  intros Hf Hix Hdim; rewrite init_cases.
  unfold save; rewrite Hix, Hf; simpl.
  destruct self as [d i ms]; simpl in *; now subst.
Qed.

(** X11: [save] is not atomic.  When the index cannot be written and no
    readable index file is left, while the metadata are written, a
    service constructed from the files has all the metadata and an empty
    index: the two are out of step. *)
Theorem failed_index_write_breaks_lockstep (w : world) (self : Retriever)
    (ix : IndexFlatL2) (leaves : file IndexFlatL2) :
  faiss w = true -> index self = Some ix -> metadatas self <> [] ->
  leaves = Absent \/ leaves = Unreadable ->
  exists self',
    __init__ (save w self (Fails leaves) Succeeds) = Ok self' /\
    index self' = Some (new_IndexFlatL2 dimension) /\
    metadatas self' = metadatas self /\
    ~ lockstep self'.
Proof.
  intros Hf Hix Hms Hleaves; rewrite init_cases.
  unfold save; rewrite Hix, Hf; simpl.
  eexists; split; [reflexivity|]; simpl.
  split; [destruct Hleaves as [-> | ->]; reflexivity|].
  split; [reflexivity|].
  intros (ix' & Hix' & Hsize); simpl in *.
  assert (ix' = new_IndexFlatL2 dimension)
    by (destruct Hleaves as [-> | ->]; simpl in Hix'; congruence).
  subst ix'; unfold ntotal in Hsize; simpl in Hsize.
  destruct (metadatas self); [contradiction | discriminate].
Qed.

(** X13: a service that was constructed keeps, through every sequence
    of [add_documents], [reset] and [save] calls, an index and the
    dimension of the provider, and [reset] on it never raises. *)
Theorem constructed_service_invariant (w : world) (self : Retriever)
    (ops : list operation) :
  __init__ w = Ok self ->
  (exists ix, index (fst (fold_left after_operation ops (self, w))) = Some ix) /\
  dim (fst (fold_left after_operation ops (self, w))) = dimension /\
  (forall remove_files, exists st,
     reset (snd (fold_left after_operation ops (self, w)))
           (fst (fold_left after_operation ops (self, w))) remove_files
     = Ok st).
Proof.
  intros Hinit.
  pose proof (after_operations_constructed ops (self, w)
                (init_constructed w self Hinit)) as (Hix & Hdim & Hf).
  split; [exact Hix|]; split; [exact Hdim|].
  intros remove_files; rewrite (reset_ok _ _ remove_files Hf).
  eexists; reflexivity.
Qed.

(** X14: an index of another dimension than the provider's, as
    construction keeps it, rejects every [add_documents] call with an
    assertion error; after a [reset] every call with texts is accepted,
    and a call with no text is still rejected. *)
Theorem stale_index_rejects_until_reset (w : world) (self : Retriever)
    (ix : IndexFlatL2) :
  index self = Some ix -> ix_d ix <> dimension -> dim self = dimension ->
  faiss w = true ->
  (forall texts sources,
     add_documents self texts sources = Raise AssertionError) /\
  (forall remove_files,
     exists self' w',
       reset w self remove_files = Ok (self', w') /\
       (forall texts sources,
          texts <> [] ->
          exists self'', add_documents self' texts sources = Ok self'') /\
       (forall sources,
          add_documents self' [] sources = Raise AssertionError)).
Proof.
  intros Hix Hd Hdim Hf; split.
  - intros texts sources; now apply (add_documents_mismatch self ix).
  - intros remove_files.
    rewrite (reset_ok w self remove_files Hf).
    do 2 eexists; split; [reflexivity|]; split.
    + intros texts sources Hne; eexists.
      apply (add_documents_ok _ (new_IndexFlatL2 (dim self)));
        [exact Hne | reflexivity | exact Hdim].
    + intros sources.
      now apply (add_documents_empty _ (new_IndexFlatL2 (dim self))).
Qed.

Lemma after_operations_complete (ops : list operation) :
  forall st,
    Forall (fun m => complete m = true) (metadatas (fst st)) ->
    Forall (fun m => complete m = true)
      (metadatas (fst (fold_left after_operation ops st))).
Proof.
  induction ops as [|o ops IH]; intros st Hst; simpl; [exact Hst|].
  apply IH; now apply after_operation_complete.
Qed.
End RetrieverOperations.

Section SearchOperations.
Context {EP : EmbeddingProvider} {FS : FaissSearch}.

(** What [search] returns is the lookup of some pairs the index gave. *)
Lemma search_inv (self : Retriever) (query : pystr) (top_k : Z)
    (results : list hit) :
  search self query top_k = Ok results ->
  exists ix D I_ D0 I0,
    index self = Some ix /\
    index_search ix (query_array query) top_k = Ok (D, I_) /\
    py_getitem D 0 = Ok D0 /\ py_getitem I_ 0 = Ok I0 /\
    results = lookup_hits (metadatas self) (combine D0 I0).
Proof.
  unfold search; cbv zeta; intros Hsearch.
  destruct (index self) as [ix|]; [|discriminate].
  destruct (index_search ix (query_array query) top_k) as [[D I_]|e] eqn:Hix;
    [|discriminate].
  destruct (py_getitem D 0) as [D0|e] eqn:HD; [|discriminate].
  destruct (py_getitem I_ 0) as [I0|e] eqn:HI; [|discriminate].
  rewrite collect_hits_lookup in Hsearch; injection Hsearch as <-.
  exists ix, D, I_, D0, I0; repeat split; assumption.
Qed.

(** X12: when the metadata cannot be written and no readable metadata
    file is left, while the index is written, a service constructed from
    the files has every vector and no metadata, and [search] on it
    returns no result whatever positions the index gives. *)
Theorem failed_meta_write_hides_documents (w : world) (self : Retriever)
    (ix : IndexFlatL2) (leaves : file (list meta)) :
  faiss w = true -> index self = Some ix ->
  leaves = Absent \/ leaves = Unreadable ->
  exists self',
    __init__ (save w self Succeeds (Fails leaves)) = Ok self' /\
    index self' = Some ix /\
    metadatas self' = [] /\
    forall query top_k results,
      search self' query top_k = Ok results -> results = [].
Proof.
  intros Hf Hix Hleaves; rewrite init_cases.
  unfold save; rewrite Hix, Hf; simpl.
  eexists; split; [reflexivity|]; simpl.
  split; [reflexivity|].
  assert (Hms : match leaves with Readable ms => ms | _ => [] end = [])
    by (destruct Hleaves as [-> | ->]; reflexivity).
  split; [exact Hms|].
  intros query top_k results Hsearch.
  apply search_inv in Hsearch as (ix' & D & I_ & D0 & I0 & _ & _ & _ & _ & ->).
  simpl; rewrite Hms; apply lookup_hits_nil.
Qed.

(** X15: what [add_documents] adds, [search] finds.  After a call with
    as many sources as texts on a retriever in lockstep, whenever the
    index names the position of the [i]-th new vector, the result for it
    carries [texts[i]] and [sources[i]]. *)
Theorem added_documents_are_found (self self' : Retriever) (ix : IndexFlatL2)
    (texts sources : list pystr) (query : pystr) (top_k : Z)
    (results : list hit) :
  index self = Some ix -> ntotal ix = List.length (metadatas self) ->
  List.length texts = List.length sources ->
  add_documents self texts sources = Ok self' ->
  search self' query top_k = Ok results ->
  exists ix' D I_ D0 I0,
    index self' = Some ix' /\
    index_search ix' (query_array query) top_k = Ok (D, I_) /\
    py_getitem D 0 = Ok D0 /\ py_getitem I_ 0 = Ok I0 /\
    forall i t s score,
      nth_error texts i = Some t -> nth_error sources i = Some s ->
      In (score, Z.of_nat (ntotal ix + i)) (combine D0 I0) ->
      In {| hit_score := score; hit_text := Some t; hit_source := Some s |}
         results.
Proof.
  intros Hix Hsize Hlen Hadd Hsearch.
  apply add_documents_inv in Hadd as (ix0 & Hix0 & Hd & ->).
  apply search_inv in Hsearch
    as (ix' & D & I_ & D0 & I0 & Hix' & Hanswer & HD & HI & ->).
  exists ix', D, I_, D0, I0.
  split; [exact Hix'|]; split; [exact Hanswer|].
  split; [exact HD|]; split; [exact HI|].
  intros i t s score Ht Hs Hin; simpl.
  apply lookup_hits_in.
  exists score, (Z.of_nat (ntotal ix + i)), (record_of (t, s)).
  assert (Hi : (i < List.length texts)%nat)
    by (apply nth_error_Some; congruence).
  split; [assumption|].
  split; [rewrite length_app, length_map, length_combine; lia|].
  split; [|reflexivity].
  rewrite Nat2Z.id, Hsize, nth_error_app_offset.
  apply map_nth_error; now apply nth_error_combine.
Qed.

(** X16: [search] returns at most as many results as the index gave
    positions; when none of the positions is past the end of the
    metadata, it returns one result for every position that is not
    negative. *)
Theorem search_result_count (self : Retriever) (query : pystr) (top_k : Z)
    (results : list hit) :
  search self query top_k = Ok results ->
  exists ix D I_ D0 I0,
    index self = Some ix /\
    index_search ix (query_array query) top_k = Ok (D, I_) /\
    py_getitem D 0 = Ok D0 /\ py_getitem I_ 0 = Ok I0 /\
    (List.length results <= List.length I0)%nat /\
    (Forall (fun p => snd p < Z.of_nat (List.length (metadatas self)))
       (combine D0 I0) ->
     List.length results
     = List.length (filter (fun p => 0 <=? snd p) (combine D0 I0))).
Proof.
  intros Hsearch.
  apply search_inv in Hsearch
    as (ix & D & I_ & D0 & I0 & Hix & Hanswer & HD & HI & ->).
  exists ix, D, I_, D0, I0.
  split; [exact Hix|]; split; [exact Hanswer|].
  split; [exact HD|]; split; [exact HI|]; split.
  - pose proof (lookup_hits_length (metadatas self) (combine D0 I0)) as Hle.
    rewrite length_combine in Hle; lia.
  - apply lookup_hits_count.
Qed.

(** X17: after a [reset] no document is returned: every [search] that
    returns, returns the empty list. *)
Theorem reset_forgets_documents (w w' : world) (self self' : Retriever)
    (remove_files : bool) (query : pystr) (top_k : Z) (results : list hit) :
  reset w self remove_files = Ok (self', w') ->
  search self' query top_k = Ok results ->
  results = [].
Proof.
  intros Hreset Hsearch.
  apply search_inv in Hsearch as (ix & D & I_ & D0 & I0 & _ & _ & _ & _ & ->).
  unfold reset in Hreset.
  destruct (faiss w); simpl in Hreset; [|discriminate].
  destruct remove_files; injection Hreset as <- _; apply lookup_hits_nil.
Qed.

(** X18: when every metadata record has its text and its source, this
    stays so through every sequence of [add_documents], [reset] and
    [save] calls, and every result of [search] then has a text and a
    source. *)
Theorem complete_metadata_kept (self : Retriever) (w : world)
    (ops : list operation) :
  Forall (fun m => complete m = true) (metadatas self) ->
  Forall (fun m => complete m = true)
    (metadatas (fst (fold_left after_operation ops (self, w)))) /\
  forall query top_k results,
    search (fst (fold_left after_operation ops (self, w))) query top_k
    = Ok results ->
    Forall (fun h => hit_text h <> None /\ hit_source h <> None) results.
Proof.
  intros Hms.
  pose proof (after_operations_complete ops (self, w) Hms) as Hkept.
  split; [exact Hkept|].
  intros query top_k results Hsearch.
  apply search_inv in Hsearch as (ix & D & I_ & D0 & I0 & _ & _ & _ & _ & ->).
  now apply lookup_hits_complete.
Qed.
End SearchOperations.

(* ================================================================= *)
(** * The further properties of the retriever at sample inputs *)

Lemma save_load_round_trip_witness :
  faiss empty_world = true /\
  index one_record
  = Some {| ix_d := 3; ix_xb := [repeat (S754_zero false) 3] |} /\
  dim one_record = @dimension toy_provider /\
  @__init__ toy_provider (save empty_world one_record Succeeds Succeeds)
  = Ok one_record.
Proof.
  split; [reflexivity|]; split; [reflexivity|]; split; [reflexivity|].
  exact (@save_load_round_trip toy_provider empty_world one_record _
           eq_refl eq_refl eq_refl).
Defined.

Lemma failed_index_write_breaks_lockstep_witness :
  metadatas one_record <> [] /\
  exists self',
    @__init__ toy_provider (save empty_world one_record (Fails Absent) Succeeds)
    = Ok self' /\
    ~ lockstep self'.
Proof.
  assert (Hms : metadatas one_record <> []) by discriminate.
  split; [exact Hms|].
  destruct (@failed_index_write_breaks_lockstep toy_provider empty_world
              one_record _ Absent eq_refl eq_refl Hms (or_introl eq_refl))
    as (self' & Hinit & _ & _ & Hout).
  exists self'; split; assumption.
Defined.

Lemma failed_meta_write_hides_documents_witness :
  exists self',
    @__init__ toy_provider
      (save empty_world one_record Succeeds (Fails Unreadable)) = Ok self' /\
    index self' = index one_record /\
    metadatas self' = [].
Proof.
  destruct (@failed_meta_write_hides_documents toy_provider toy_search
              empty_world one_record _ Unreadable eq_refl eq_refl
              (or_intror eq_refl))
    as (self' & Hinit & Hix & Hms & _).
  exists self'; repeat split; assumption.
Defined.

Lemma constructed_service_invariant_witness :
  @__init__ toy_provider empty_world = Ok fresh_retriever /\
  dim (fst (fold_left (@after_operation toy_provider)
              [AddDocuments [str "a"] [str "doc.txt"]; Reset true;
               Save Succeeds Succeeds]
              (fresh_retriever, empty_world)))
  = @dimension toy_provider.
Proof.
  split; [reflexivity|].
  exact (proj1 (proj2 (@constructed_service_invariant toy_provider empty_world
                         fresh_retriever
                         [AddDocuments [str "a"] [str "doc.txt"]; Reset true;
                          Save Succeeds Succeeds]
                         eq_refl))).
Defined.

Lemma stale_index_rejects_until_reset_witness :
  ix_d stale_index <> @dimension toy_provider /\
  @add_documents toy_provider stale_retriever [str "a"] [str "doc.txt"]
  = Raise AssertionError.
Proof.
  assert (Hd : ix_d stale_index <> @dimension toy_provider) by discriminate.
  split; [exact Hd|].
  exact (proj1 (@stale_index_rejects_until_reset toy_provider stale_world
                  stale_retriever stale_index eq_refl Hd eq_refl eq_refl)
           [str "a"] [str "doc.txt"]).
Defined.

Lemma added_documents_are_found_witness :
  @add_documents toy_provider fresh_retriever
    [str "a"; str "bc"] [str "x.txt"; str "y.txt"] = Ok two_docs /\
  @search toy_provider toy_search two_docs (str "q") 2 = Ok two_hits /\
  exists ix' D I_,
    index two_docs = Some ix' /\
    @index_search toy_search ix' (@query_array toy_provider (str "q")) 2
    = Ok (D, I_).
Proof.
  assert (Hadd : @add_documents toy_provider fresh_retriever
                   [str "a"; str "bc"] [str "x.txt"; str "y.txt"] = Ok two_docs)
    by reflexivity.
  assert (Hsearch : @search toy_provider toy_search two_docs (str "q") 2
                    = Ok two_hits)
    by reflexivity.
  split; [exact Hadd|]; split; [exact Hsearch|].
  destruct (@added_documents_are_found toy_provider toy_search fresh_retriever
              two_docs (new_IndexFlatL2 3) [str "a"; str "bc"]
              [str "x.txt"; str "y.txt"] (str "q") 2 two_hits
              eq_refl eq_refl eq_refl Hadd Hsearch)
    as (ix' & D & I_ & D0 & I0 & Hix' & Hanswer & _).
  exists ix', D, I_; split; [exact Hix' | exact Hanswer].
Defined.

Lemma search_result_count_witness :
  @search toy_provider toy_search two_docs (str "q") 2 = Ok two_hits /\
  exists ix D I_ I0,
    index two_docs = Some ix /\
    @index_search toy_search ix (@query_array toy_provider (str "q")) 2
    = Ok (D, I_) /\
    py_getitem I_ 0 = Ok I0 /\
    (List.length two_hits <= List.length I0)%nat.
Proof.
  assert (Hsearch : @search toy_provider toy_search two_docs (str "q") 2
                    = Ok two_hits)
    by reflexivity.
  split; [exact Hsearch|].
  destruct (@search_result_count toy_provider toy_search two_docs (str "q") 2
              two_hits Hsearch)
    as (ix & D & I_ & D0 & I0 & Hix & Hanswer & _ & HI & Hle & _).
  exists ix, D, I_, I0; repeat split; assumption.
Defined.

Lemma reset_forgets_documents_witness :
  reset empty_world two_docs false = Ok (fresh_retriever, empty_world) /\
  @search toy_provider toy_search fresh_retriever (str "q") 3 = Ok [] /\
  @nil hit = [].
Proof.
  assert (Hreset : reset empty_world two_docs false
                   = Ok (fresh_retriever, empty_world)) by reflexivity.
  assert (Hsearch : @search toy_provider toy_search fresh_retriever (str "q") 3
                    = Ok []) by reflexivity.
  split; [exact Hreset|]; split; [exact Hsearch|].
  exact (@reset_forgets_documents toy_provider toy_search _ _ _ _ _
           (str "q") 3 [] Hreset Hsearch).
Defined.

Lemma complete_metadata_kept_witness :
  Forall (fun m => complete m = true) (metadatas one_record) /\
  Forall (fun m => complete m = true)
    (metadatas (fst (fold_left (@after_operation toy_provider)
                       [AddDocuments [str "a"] [str "doc.txt"]]
                       (one_record, empty_world)))).
Proof.
  assert (Hms : Forall (fun m => complete m = true) (metadatas one_record))
    by (repeat constructor).
  split; [exact Hms|].
  exact (proj1 (@complete_metadata_kept toy_provider toy_search one_record
                  empty_world [AddDocuments [str "a"] [str "doc.txt"]] Hms)).
Defined.

(* ================================================================= *)
(** * Properties of the endpoints *)

Lemma in_combine_repeat {A B : Type} (l : list A) (b : B) (n : nat) (p : A * B) :
  In p (combine l (repeat b n)) -> In (fst p) l /\ snd p = b.
Proof.
  destruct p as [a b']; intros Hin; split; simpl.
  - eapply in_combine_l; eassumption.
  - apply in_combine_r in Hin; eapply repeat_spec; eassumption.
Qed.

Lemma roberta_ok_inv {L : LogFile}
    (roberta_model : pystr -> pystr -> result qa_result)
    (now question : pystr) (contexts : list pystr) (log log' : list log_entry)
    (answer : pystr) :
  answer_with_roberta roberta_model now question contexts log
  = Ok (answer, log') ->
  answer <> [] /\ List.length log' = S (List.length log).
Proof.
  unfold answer_with_roberta.
  destruct (roberta_model question (join [10%N] contexts)) as [r|e];
    [|discriminate].
  destruct (log_qa_interaction now question _ _ log) as [logged|e] eqn:Hlog;
    [|discriminate].
  apply log_qa_interaction_inv in Hlog.
  destruct (not_ (strip (dict_get (qa_answer r) []))
            || SFltb (dict_get (qa_score r) zero_score) threshold) eqn:Hcond;
    intros [= <- <-]; rewrite Hlog, length_app, Nat.add_1_r.
  - split; [exact sentinel_not_empty | reflexivity].
  - apply orb_false_iff in Hcond as [Hspan _].
    split; [now apply not_false | reflexivity].
Qed.

Lemma flan_ok_inv {L : LogFile} {U : Unicode}
    (flan_model : pystr -> result (list generation))
    (now question : pystr) (contexts : list pystr) (log log' : list log_entry)
    (answer : pystr) :
  answer_with_flan_t5 flan_model now question contexts log
  = Ok (answer, log') ->
  answer <> [] /\ List.length log' = S (List.length log).
Proof.
  unfold answer_with_flan_t5; cbv zeta.
  destruct (flan_model _) as [results|e]; [|discriminate].
  destruct (py_getitem results 0) as [result|e]; [|discriminate].
  set (a := strip (dict_get (generated_text result) [])).
  destruct (log_qa_interaction now question _ None log) as [logged|e] eqn:Hlog;
    [|discriminate].
  apply log_qa_interaction_inv in Hlog.
  destruct (not_ a || contains (str "not relevant") (lower a)
            || contains (str "i don't know") (lower a)) eqn:Hcond;
    intros [= <- <-]; rewrite Hlog, length_app, Nat.add_1_r.
  - split; [exact not_relevant_not_empty | reflexivity].
  - apply orb_false_iff in Hcond as [Hcond _].
    apply orb_false_iff in Hcond as [Hspan _].
    split; [now apply not_false | reflexivity].
Qed.

(** Results of records that have a text have a text. *)
Lemma lookup_hits_text (ms : list meta) (pairs : list (spec_float * Z)) :
  Forall (fun m => meta_text m <> None) ms ->
  Forall (fun h => hit_text h <> None) (lookup_hits ms pairs).
Proof.
  intros Hms; apply Forall_forall; intros h Hh.
  apply lookup_hits_in in Hh as (score & idx & m & _ & _ & Hnth & ->).
  apply nth_error_In in Hnth.
  rewrite Forall_forall in Hms; exact (Hms m Hnth).
Qed.

Lemma all_str_some (contexts : list (option pystr)) :
  Forall (fun c => c <> None) contexts ->
  exists texts, all_str contexts = Some texts.
Proof.
  induction 1 as [|c rest Hc _ [texts IH]]; simpl; [now exists []|].
  destruct c as [c|]; [|contradiction].
  rewrite IH; eexists; reflexivity.
Qed.

Section EndpointProperties.
Context {EP : EmbeddingProvider} {FS : FaissSearch} {L : LogFile}
        {U : Unicode} {E : Extractors}.

(** What is asked of the chunks of an upload. *)
Local Abbreviation chunk_ok := (fun c : pystr => c <> [] /\ (List.length c <= 800)%nat).

Lemma parse_and_chunk_file_some (fs : store) (path : pystr) :
  exists r,
    parse_and_chunk_file fs path = Some r /\
    forall texts, r = Ok texts -> Forall chunk_ok texts.
Proof.
  unfold parse_and_chunk_file.
  destruct (parse_file fs path) as [[content|]|e].
  - destruct (default_chunks content) as (cks & -> & _ & Hall & _).
    eexists; split; [reflexivity|]; now intros texts [= <-].
  - eexists; split; [reflexivity|]; intros texts [= <-]; constructor.
  - eexists; split; [reflexivity|]; discriminate.
Qed.

(** The loop of [upload_files] always ends, leaves the files of the
    retriever and the log alone, and keeps what every [add_documents]
    call of the loop keeps. *)
Lemma upload_loop_keeps (P : Retriever -> Prop) (uploaded : list UploadFile) :
  forall st saved,
    (forall f self texts self',
       In f uploaded -> Forall chunk_ok texts -> P self ->
       add_documents self texts
         (repeat (upload_path (filename f)) (List.length texts)) = Ok self' ->
       P self') ->
    P (retr st) ->
    exists st' out,
      upload_loop st uploaded saved = Some (st', out) /\
      P (retr st') /\ disk st' = disk st /\ qa_log st' = qa_log st /\
      forall saved',
        out = Ok saved' ->
        saved' = saved ++ map (fun f => upload_path (filename f)) uploaded.
Proof.
  induction uploaded as [|f rest IH]; intros st saved Hkeep HP; simpl.
  - do 2 eexists; split; [reflexivity|]; repeat split; try assumption.
    intros saved' [= <-]; now rewrite app_nil_r.
  - destruct (parse_and_chunk_file_some
                (write_upload (uploads st) (upload_path (filename f))
                   (upload_bytes f))
                (upload_path (filename f))) as (r & -> & Hchunks).
    destruct r as [texts|e].
    + destruct (add_documents (retr st) texts
                  (repeat (upload_path (filename f)) (List.length texts)))
        as [self'|e] eqn:Hadd.
      * edestruct (IH {| retr := self'; disk := disk st;
                         uploads := write_upload (uploads st)
                                      (upload_path (filename f)) (upload_bytes f);
                         qa_log := qa_log st |}
                      (saved ++ [upload_path (filename f)]))
          as (st' & out & Hloop & HP' & Hdisk & Hlog & Hsaved).
        { intros f' self texts' self'' Hin; apply Hkeep; now right. }
        { simpl; eapply (Hkeep f); [now left | now apply Hchunks | eassumption
                                    | eassumption]. }
        exists st', out; split; [exact Hloop|].
        repeat split; try assumption.
        intros saved' Hout; rewrite (Hsaved saved' Hout), <- app_assoc.
        reflexivity.
      * do 2 eexists; split; [reflexivity|]; repeat split; try assumption.
        discriminate.
    + do 2 eexists; split; [reflexivity|]; repeat split; try assumption.
      discriminate.
Qed.

Lemma add_documents_lockstep (self self' : Retriever) (texts : list pystr)
    (dest : pystr) :
  lockstep self ->
  add_documents self texts (repeat dest (List.length texts)) = Ok self' ->
  lockstep self'.
Proof.
  intros Hlock Hadd.
  pose proof (after_add_lockstep self (texts, repeat dest (List.length texts))
                Hlock) as Hafter.
  unfold after_add in Hafter; simpl in Hafter; rewrite Hadd in Hafter.
  apply Hafter; now rewrite repeat_length.
Qed.

(** X19: [upload_files] always ends, and it keeps the index and the
    metadata in lockstep, whatever the files hold, whether it resets
    first, and whether it returns or raises on the way: the sources it
    passes to [add_documents] are as many as the chunks. *)
Theorem upload_keeps_lockstep (st : app) (uploaded : list UploadFile)
    (reset_index : bool) (index_write : write_attempt IndexFlatL2)
    (meta_write : write_attempt (list meta)) :
  lockstep (retr st) ->
  exists st' out,
    upload_files st uploaded reset_index index_write meta_write
    = Some (st', out) /\
    lockstep (retr st').
Proof.
  intros Hlock; unfold upload_files.
  assert (Hkeep : forall f self texts self',
             In f uploaded -> Forall chunk_ok texts -> lockstep self ->
             add_documents self texts
               (repeat (upload_path (filename f)) (List.length texts)) = Ok self' ->
             lockstep self')
    by (intros f self texts self' _ _; apply add_documents_lockstep).
  destruct (if reset_index then reset (disk st) (retr st) true
            else Ok (retr st, disk st)) as [[r w]|e] eqn:Hreset.
  - assert (Hr : lockstep r).
    { destruct reset_index; [|now injection Hreset as <- _].
      unfold reset in Hreset.
      destruct (faiss (disk st)); simpl in Hreset; [|discriminate].
      injection Hreset as <- _; eexists; split; reflexivity. }
    destruct (upload_loop_keeps lockstep uploaded
                {| retr := r; disk := w; uploads := uploads st;
                   qa_log := qa_log st |} [] Hkeep Hr)
      as (st' & out & -> & Hlock' & _).
    destruct out as [saved|e]; do 2 eexists; (split; [reflexivity|]);
      exact Hlock'.
  - do 2 eexists; split; [reflexivity | exact Hlock].
Qed.

(** X20: after an upload that resets first, the metadata hold nothing of
    the previous corpus: every record is a chunk of one to 800
    characters with the path of one of the uploaded files as its source,
    also when the upload raised on the way. *)
Theorem upload_with_reset_replaces_corpus (st st' : app)
    (uploaded : list UploadFile) (index_write : write_attempt IndexFlatL2)
    (meta_write : write_attempt (list meta)) (out : result upload_response) :
  faiss (disk st) = true ->
  upload_files st uploaded true index_write meta_write = Some (st', out) ->
  Forall (fun m =>
            exists f c,
              In f uploaded /\
              m = record_of (c, upload_path (filename f)) /\
              c <> [] /\ (List.length c <= 800)%nat)
    (metadatas (retr st')).
Proof.
  intros Hf Hup; unfold upload_files in Hup.
  rewrite (reset_ok (disk st) (retr st) true Hf) in Hup.
  set (Q := fun m : meta =>
              exists f c,
                In f uploaded /\
                m = record_of (c, upload_path (filename f)) /\
                c <> [] /\ (List.length c <= 800)%nat).
  destruct (upload_loop_keeps (fun self => Forall Q (metadatas self)) uploaded
              {| retr := {| dim := dim (retr st);
                            index := Some (new_IndexFlatL2 (dim (retr st)));
                            metadatas := [] |};
                 disk := remove_persisted (disk st);
                 uploads := uploads st; qa_log := qa_log st |} [])
    as (st1 & out1 & Hloop & HQ & _).
  - intros f self texts self' Hin Hchunks Hself Hadd.
    apply add_documents_inv in Hadd as (ix & _ & _ & ->); simpl.
    apply Forall_app; split; [assumption|].
    apply Forall_forall; intros m Hm.
    apply in_map_iff in Hm as ([c dest] & <- & Hpair).
    apply in_combine_repeat in Hpair as [Hc Hdest]; simpl in Hc, Hdest; subst dest.
    rewrite Forall_forall in Hchunks; destruct (Hchunks c Hc) as [Hne Hlen].
    exists f, c; repeat split; assumption.
  - constructor.
  - rewrite Hloop in Hup.
    destruct out1 as [saved|e]; injection Hup as <- _; exact HQ.
Qed.

(** X21: an upload that returns answers with the status "ok" and the
    paths of the uploaded files in order, and when both writes of
    [save] succeed, a service constructed from the files is the
    retriever the upload left. *)
Theorem upload_success_persists (st st' : app) (uploaded : list UploadFile)
    (reset_index : bool) (resp : upload_response) :
  constructed (retr st, disk st) ->
  upload_files st uploaded reset_index Succeeds Succeeds = Some (st', Ok resp) ->
  status resp = str "ok" /\
  files resp = map (fun f => upload_path (filename f)) uploaded /\
  __init__ (disk st') = Ok (retr st').
Proof.
  intros ([ix Hix] & Hdim & Hf) Hup; simpl in *; unfold upload_files in Hup.
  set (P := fun self : Retriever =>
              (exists ix, index self = Some ix) /\ dim self = dimension).
  assert (Hkeep : forall f self texts self',
             In f uploaded -> Forall chunk_ok texts -> P self ->
             add_documents self texts
               (repeat (upload_path (filename f)) (List.length texts)) = Ok self' ->
             P self').
  { intros f self texts self' _ _ [_ Hd] Hadd.
    apply add_documents_inv in Hadd as (ix0 & _ & _ & ->).
    split; [eexists; reflexivity | exact Hd]. }
  destruct (if reset_index then reset (disk st) (retr st) true
            else Ok (retr st, disk st)) as [[r w]|e] eqn:Hreset;
    [|discriminate].
  assert (Hr : P r /\ faiss w = true).
  { destruct reset_index.
    - rewrite (reset_ok (disk st) (retr st) true Hf) in Hreset.
      injection Hreset as <- <-.
      split; [split; [eexists; reflexivity | exact Hdim]|].
      rewrite remove_persisted_faiss; exact Hf.
    - injection Hreset as <- <-; repeat split; [now exists ix | assumption..]. }
  destruct Hr as [Hr Hfw].
  destruct (upload_loop_keeps P uploaded
              {| retr := r; disk := w; uploads := uploads st;
                 qa_log := qa_log st |} [] Hkeep Hr)
    as (st1 & out1 & Hloop & ([ix1 Hix1] & Hdim1) & Hdisk & _ & Hsaved).
  rewrite Hloop in Hup.
  destruct out1 as [saved|e]; [|discriminate].
  injection Hup as Hst Hresp; subst st' resp; simpl.
  split; [reflexivity|].
  split; [exact (Hsaved saved eq_refl)|].
  rewrite init_cases; simpl in Hdisk; rewrite Hdisk.
  unfold save; rewrite Hix1, Hfw; simpl.
  destruct (retr st1) as [d i ms]; simpl in *; now subst.
Qed.

(** X22: on a retriever whose metadata records all have a text, [/ask]
    does not fail with the [TypeError] of joining a missing context.  It
    changes nothing but the log.  When it answers, the answer is not
    empty, the contexts are the texts of the results of [search], in
    order, and the log has one entry more; when it fails, the log is as
    it was. *)
Theorem ask_on_complete_metadata
    (flan_model : pystr -> result (list generation))
    (roberta_model : pystr -> pystr -> result qa_result)
    (now : pystr) (st st' : app) (question model_name : pystr) (top_k : Z)
    (out : ask_response + ask_error) :
  Forall (fun m => meta_text m <> None) (metadatas (retr st)) ->
  ask flan_model roberta_model now st question model_name top_k = (st', out) ->
  out <> inr TypeError /\
  retr st' = retr st /\ disk st' = disk st /\ uploads st' = uploads st /\
  (forall resp,
     out = inl resp ->
     resp_question resp = question /\
     resp_answer resp <> [] /\
     (exists hits,
        search (retr st) question top_k = Ok hits /\
        resp_contexts resp = map hit_text hits) /\
     List.length (qa_log st') = S (List.length (qa_log st))) /\
  (forall e, out = inr e -> st' = st).
Proof.
  intros Hms; unfold ask.
  destruct (search (retr st) question top_k) as [hits|e] eqn:Hsearch.
  - assert (Htexts : Forall (fun c => c <> None) (map hit_text hits)).
    { apply search_inv in Hsearch
        as (ix & D & I_ & D0 & I0 & _ & _ & _ & _ & ->).
      apply Forall_map.
      now apply lookup_hits_text. }
    destruct (all_str_some _ Htexts) as [texts ->].
    assert (Hanswered : forall answered,
              (forall answer log,
                 answered = Ok (answer, log) ->
                 answer <> [] /\ List.length log = S (List.length (qa_log st))) ->
              match answered with
              | Raise e => (st, inr (Propagated e))
              | Ok (answer, log) =>
                  ({| retr := retr st; disk := disk st; uploads := uploads st;
                      qa_log := log |},
                   inl {| resp_question := question; resp_answer := answer;
                          resp_contexts := map hit_text hits |})
              end = (st', out) ->
              out <> inr TypeError /\
              retr st' = retr st /\ disk st' = disk st /\
              uploads st' = uploads st /\
              (forall resp,
                 out = inl resp ->
                 resp_question resp = question /\
                 resp_answer resp <> [] /\
                 (exists hits0,
                    Ok hits = Ok hits0 /\
                    resp_contexts resp = map hit_text hits0) /\
                 List.length (qa_log st') = S (List.length (qa_log st))) /\
              (forall e, out = inr e -> st' = st)).
    { intros [[answer log]|e] Hinv Hout; injection Hout as <- <-; simpl.
      - destruct (Hinv answer log eq_refl) as [Hne Hlog].
        split; [discriminate|].
        split; [reflexivity|]; split; [reflexivity|]; split; [reflexivity|].
        split; [|discriminate].
        intros resp Hresp; injection Hresp as <-; simpl.
        split; [reflexivity|]; split; [assumption|].
        split; [exists hits; split; reflexivity | assumption].
      - split; [discriminate|].
        split; [reflexivity|]; split; [reflexivity|]; split; [reflexivity|].
        split; [discriminate | reflexivity]. }
    destruct (str_eqb model_name (str "google/flan-t5-small"));
      apply Hanswered; intros answer log.
    + apply flan_ok_inv.
    + apply roberta_ok_inv.
  - intros Hout; injection Hout as <- <-.
    split; [discriminate|].
    split; [reflexivity|]; split; [reflexivity|]; split; [reflexivity|].
    split; [discriminate | reflexivity].
Qed.
End EndpointProperties.

(* ================================================================= *)
(** * The properties of the endpoints at sample inputs *)

Lemma sample_upload_runs :
  @upload_files toy_provider ascii_lower toy_extractors sample_app
    [sample_upload] true Succeeds Succeeds
  = Some (uploaded_app, Ok uploaded_response).
Proof. vm_compute; reflexivity. Qed.

Lemma upload_keeps_lockstep_witness :
  lockstep (retr sample_app) /\
  exists st' out,
    @upload_files toy_provider ascii_lower toy_extractors sample_app
      [sample_upload] true Succeeds Succeeds = Some (st', out) /\
    lockstep (retr st').
Proof.
  assert (Hlock : lockstep (retr sample_app))
    by (eexists; split; reflexivity).
  split; [exact Hlock|].
  exact (upload_keeps_lockstep (EP := toy_provider) (U := ascii_lower)
           (E := toy_extractors) sample_app [sample_upload] true
           Succeeds Succeeds Hlock).
Defined.

Lemma upload_with_reset_replaces_corpus_witness :
  faiss (disk sample_app) = true /\
  Forall (fun m =>
            exists f c,
              In f [sample_upload] /\
              m = record_of (c, @upload_path toy_extractors (filename f)) /\
              c <> [] /\ (List.length c <= 800)%nat)
    (metadatas (retr uploaded_app)).
Proof.
  split; [reflexivity|].
  exact (upload_with_reset_replaces_corpus (EP := toy_provider)
           (U := ascii_lower) (E := toy_extractors) sample_app uploaded_app
           [sample_upload] Succeeds Succeeds (Ok uploaded_response)
           eq_refl sample_upload_runs).
Defined.

Lemma upload_success_persists_witness :
  @constructed toy_provider (retr sample_app, disk sample_app) /\
  files uploaded_response = [str "uploads/notes.md"] /\
  @__init__ toy_provider (disk uploaded_app) = Ok (retr uploaded_app).
Proof.
  assert (Hc : @constructed toy_provider (retr sample_app, disk sample_app))
    by (repeat split; eexists; reflexivity).
  split; [exact Hc|].
  destruct (upload_success_persists (EP := toy_provider) (U := ascii_lower)
              (E := toy_extractors) sample_app uploaded_app [sample_upload]
              true uploaded_response Hc sample_upload_runs)
    as (_ & Hfiles & Hinit).
  split; [exact Hfiles | exact Hinit].
Defined.

Lemma sample_ask_runs :
  @ask toy_provider toy_search open_log ascii_lower unsure_model nan_model
    (str "now") asked_app (str "Where?") (str "roberta") 3
  = (fst asked_result, snd asked_result).
Proof. vm_compute; reflexivity. Qed.

Lemma ask_on_complete_metadata_witness :
  Forall (fun m => meta_text m <> None) (metadatas (retr asked_app)) /\
  snd asked_result <> inr TypeError /\
  retr (fst asked_result) = retr asked_app.
Proof.
  assert (Hms : Forall (fun m => meta_text m <> None)
                  (metadatas (retr asked_app)))
    by (repeat constructor; discriminate).
  split; [exact Hms|].
  destruct (ask_on_complete_metadata (EP := toy_provider) (FS := toy_search)
              (L := open_log) (U := ascii_lower) unsure_model nan_model (str "now") asked_app
              (fst asked_result) (str "Where?") (str "roberta") 3
              (snd asked_result) Hms sample_ask_runs)
    as (Hout & Hretr & _).
  split; [exact Hout | exact Hretr].
Defined.
